(** * SEEDS-BITS session runtime hub: a shallow embedding of
      [backend/ws_manager.py] and of the audio control handler of
      [backend/main.py], with the properties of the session hub.

    The Python module keeps three pieces of mutable state: the manager's
    [self.active] map, the module-level [SESSION_STATE] dictionary and the
    [asyncio.Queue] objects shared between the two maps and the transport
    that drains them.  Queues are modelled as references into a store, so
    that a queue taken out of the registry by [kick_participant] still
    exists and can still be written to. *)

From stdpp Require Import gmap strings list fin_maps.
From Stdlib Require Import PrimFloat.

Open Scope string_scope.
Open Scope list_scope.
Open Scope Z_scope.

(** ** Python values *)

(** The values that travel through the hub: [None], booleans, integers,
    floats, strings and dictionaries with string keys. *)
#[local] Unset Elimination Schemes.
Inductive pyval :=
  | PNone
  | PBool (b : bool)
  | PInt (z : Z)
  | PFloat (f : float)
  | PStr (s : string)
  | PDict (d : gmap string pyval).

#[local] Set Elimination Schemes.

Abbreviation pydict := (gmap string pyval).

(** [d.get(k)]: a missing key reads as [None]. *)
Definition dict_get (d : pydict) (k : string) : pyval :=
  default PNone (d !! k).

(** [d.get(k, dflt)]. *)
Definition dict_get_default (d : pydict) (k : string) (dflt : pyval) : pyval :=
  default dflt (d !! k).

(** [d.update(u)]: the keys of [u] overwrite those of [d]. *)
Definition dict_update (u d : pydict) : pydict := u ∪ d.

(** [v == s] for a string literal [s]. *)
Definition py_eq_str (v : pyval) (s : string) : bool :=
  match v with
  | PStr t => bool_decide (t = s)
  | _ => false
  end.

(** [v is None]. *)
Definition is_none (v : pyval) : bool :=
  match v with
  | PNone => true
  | _ => false
  end.

(** ** asyncio.Queue *)

(** A queue holds its [maxsize] and its pending items, oldest first.  The
    item [PNone] is the sentinel on which the SSE generator exits. *)
Record Queue := mkQueue {
  maxsize : Z;
  items : list pyval;
}.

Definition qsize (q : Queue) : Z := Z.of_nat (length (items q)).

(** [Queue.full()]: a queue with [maxsize <= 0] is never full. *)
Definition full (q : Queue) : bool :=
  if decide (maxsize q <= 0) then false
  else bool_decide (maxsize q <= qsize q).

(** [Queue.put_nowait(item)]: [None] stands for the raised
    [asyncio.QueueFull]. *)
Definition put_nowait (q : Queue) (item : pyval) : option Queue :=
  if full q then None
  else Some (mkQueue (maxsize q) (items q ++ [item])).

(** ** Hub state *)

(** References to queue objects. *)
Abbreviation qref := nat.

(** One entry of [SESSION_STATE]. *)
Record session := mkSession {
  connections : gmap Z qref;
  participants : gmap Z pydict;
  playback : pydict;
}.

(** The lines the manager prints. *)
Inductive log_line :=
  | LogConnected (session_id participant_id : Z) (name : string) (is_teacher : bool)
  | LogDisconnected (session_id participant_id : Z)
  | LogPersonalQueueFull
  | LogNoConnections (session_id : Z) (type : pyval)
  | LogBroadcast (session_id : Z) (type : pyval) (exclude : gset Z)
  | LogQueueFull (participant_id : Z)
  | LogSessionClosed (session_id : Z)
  | LogMuted (participant_id : Z) (mute : bool) (session_id : Z)
  | LogKicked (participant_id session_id : Z).

Record world := mkWorld {
  active : gmap Z (gmap Z qref);
  SESSION_STATE : gmap Z session;
  heap : gmap qref Queue;
  stdout : list log_line;
}.

Definition set_active (f : gmap Z (gmap Z qref) → gmap Z (gmap Z qref)) (w : world) : world :=
  mkWorld (f (active w)) (SESSION_STATE w) (heap w) (stdout w).

Definition set_SESSION_STATE (f : gmap Z session → gmap Z session) (w : world) : world :=
  mkWorld (active w) (f (SESSION_STATE w)) (heap w) (stdout w).

Definition set_heap (f : gmap qref Queue → gmap qref Queue) (w : world) : world :=
  mkWorld (active w) (SESSION_STATE w) (f (heap w)) (stdout w).

(** [print(line)]. *)
Definition print (line : log_line) (w : world) : world :=
  mkWorld (active w) (SESSION_STATE w) (heap w) (stdout w ++ [line]).

(** The state of a freshly started server. *)
Definition empty_world : world := mkWorld ∅ ∅ ∅ [].

Definition default_playback : pydict :=
  {[ "audio_id" := PNone; "status" := PStr "stopped"; "speed" := PFloat 1.0%float;
     "position" := PFloat 0.0%float; "title" := PNone ]}.

Definition default_session : session := mkSession ∅ ∅ default_playback.

(** ** Writing to a queue object *)

(** [q.put_nowait(item)] on the queue behind the reference [q].  The
    boolean tells whether the call returned ([true]) or raised
    [asyncio.QueueFull] ([false]); a raise leaves the queue as it was.  A
    reference always points to a live object in Python; the last case is
    there to keep the function total. *)
Definition q_put_nowait (q : qref) (item : pyval) (w : world) : bool * world :=
  match heap w !! q with
  | Some c =>
      match put_nowait c item with
      | Some c' => (true, set_heap <[q := c']> w)
      | None => (false, w)
      end
  | None => (true, w)
  end.

(** Two statements in sequence inside a [try] block: the second one runs
    only when the first one did not raise. *)
Definition and_then (f g : world → bool * world) (w : world) : bool * world :=
  let '(ok, w1) := f w in
  if ok then g w1 else (false, w1).

(** [try: body  except asyncio.QueueFull: handler]. *)
Definition try_except_QueueFull (body : world → bool * world)
    (handler : world → world) (w : world) : world :=
  let '(ok, w1) := body w in
  if ok then w1 else handler w1.

(** [pass]. *)
Definition pass (w : world) : world := w.

(** [for pid, q in conns: body]. *)
Definition for_each_conn (body : Z → qref → world → world)
    (conns : list (Z * qref)) (w : world) : world :=
  foldl (λ w pq, body pq.1 pq.2 w) w conns.

(** [list(self.active.get(session_id, {}).items())].  Python lists the
    items in insertion order and [map_to_list] in key order; the order of
    the deliveries is shown below not to matter for any queue, since the
    queues of one session are distinct objects. *)
Definition active_items (session_id : Z) (w : world) : list (Z * qref) :=
  map_to_list (default ∅ (active w !! session_id)).

(** ** Connection lifecycle *)

(** [WebSocketManager.connect]. *)
Definition connect (session_id participant_id user_id : Z) (name : string)
    (is_teacher : bool) (w : world) : qref * world :=
  (* q = asyncio.Queue(maxsize=256) *)
  let q := fresh (dom (heap w)) in
  let w := set_heap <[q := mkQueue 256 []]> w in
  (* self.active.setdefault(session_id, {})[participant_id] = q *)
  let w := set_active (λ a, <[session_id := <[participant_id := q]> (default ∅ (a !! session_id))]> a) w in
  (* s = SESSION_STATE.setdefault(session_id, {...}) *)
  let s := default default_session (SESSION_STATE w !! session_id) in
  let existing := default ∅ (participants s !! participant_id) in
  let entry : pydict :=
    {[ "user_id" := PInt user_id; "name" := PStr name;
       "is_muted" := dict_get_default existing "is_muted" (PBool false);
       "raised_hand" := dict_get_default existing "raised_hand" (PBool false);
       "is_teacher" := PBool is_teacher ]} in
  let s := mkSession (<[participant_id := q]> (connections s))
                     (<[participant_id := entry]> (participants s))
                     (playback s) in
  let w := set_SESSION_STATE <[session_id := s]> w in
  (q, print (LogConnected session_id participant_id name is_teacher) w).

(** [WebSocketManager.disconnect]: the queue leaves both maps, the roster
    entry stays. *)
Definition disconnect (session_id participant_id : Z) (w : world) : world :=
  (* self.active.get(session_id, {}).pop(participant_id, None) *)
  let w := set_active (alter (delete participant_id) session_id) w in
  (* if session_id in SESSION_STATE: ...["connections"].pop(participant_id, None) *)
  let w := set_SESSION_STATE
             (alter (λ s, mkSession (delete participant_id (connections s))
                                    (participants s) (playback s)) session_id) w in
  print (LogDisconnected session_id participant_id) w.

(** ** Sending helpers *)

(** [WebSocketManager.send_personal]. *)
Definition send_personal (queue : qref) (message : pydict) (w : world) : world :=
  try_except_QueueFull (q_put_nowait queue (PDict message))
                       (print LogPersonalQueueFull) w.

(** The body of the loop of [broadcast]: skip an excluded participant,
    otherwise put the message and print a line when the queue is full. *)
Definition deliver (exclude : gset Z) (message : pydict) (pid : Z) (q : qref)
    (w : world) : world :=
  if decide (pid ∈ exclude) then w
  else try_except_QueueFull (q_put_nowait q (PDict message))
                            (print (LogQueueFull pid)) w.

(** [WebSocketManager.broadcast].  [exclude] is the optional set of
    participant ids; [exclude or set()] reads a missing one as empty. *)
Definition broadcast (session_id : Z) (message : pydict)
    (exclude : option (gset Z)) (w : world) : world :=
  let exclude := default ∅ exclude in
  let conns := active_items session_id w in
  match conns with
  | [] => print (LogNoConnections session_id (dict_get message "type")) w
  | _ :: _ =>
      let w := print (LogBroadcast session_id (dict_get message "type") exclude) w in
      for_each_conn (deliver exclude message) conns w
  end.

Definition session_ended_msg : pydict := {[ "type" := PStr "session_ended" ]}.

(** The body of the loop of [close_session]. *)
Definition end_stream (_ : Z) (q : qref) (w : world) : world :=
  try_except_QueueFull
    (and_then (q_put_nowait q (PDict session_ended_msg)) (q_put_nowait q PNone))
    pass w.

(** [WebSocketManager.close_session]. *)
Definition close_session (session_id : Z) (w : world) : world :=
  let conns := active_items session_id w in
  let w := for_each_conn end_stream conns w in
  (* self.active.pop(session_id, None); SESSION_STATE.pop(session_id, None) *)
  let w := set_active (delete session_id) w in
  let w := set_SESSION_STATE (delete session_id) w in
  print (LogSessionClosed session_id) w.

(** ** Participant actions *)

Definition participant_muted_msg (participant_id : Z) (mute : bool) : pydict :=
  {[ "type" := PStr "participant_muted"; "participant_id" := PInt participant_id;
     "is_muted" := PBool mute ]}.

(** [WebSocketManager.mute_participant]. *)
Definition mute_participant (session_id participant_id : Z) (mute : bool)
    (w : world) : world :=
  match SESSION_STATE w !! session_id with
  | None => w
  | Some s =>
      (* ...["participants"].setdefault(participant_id, {})["is_muted"] = mute *)
      let entry := default ∅ (participants s !! participant_id) in
      let s := mkSession (connections s)
                 (<[participant_id := <["is_muted" := PBool mute]> entry]> (participants s))
                 (playback s) in
      let w := set_SESSION_STATE <[session_id := s]> w in
      let w := broadcast session_id (participant_muted_msg participant_id mute) None w in
      print (LogMuted participant_id mute session_id) w
  end.

(** [reason or dflt] for an optional string: [None] and the empty string
    are both falsy. *)
Definition str_or (reason : option string) (dflt : string) : string :=
  match reason with
  | Some r => if decide (r = "") then dflt else r
  | None => dflt
  end.

Definition kicked_msg (reason : option string) : pydict :=
  {[ "type" := PStr "kicked"; "reason" := PStr (str_or reason "Removed by teacher") ]}.

Definition participant_kicked_msg (participant_id : Z) : pydict :=
  {[ "type" := PStr "participant_kicked"; "participant_id" := PInt participant_id ]}.

(** [WebSocketManager.kick_participant].  An [asyncio.Queue] defines neither
    [__bool__] nor [__len__], so [if q:] only tests that a queue was found. *)
Definition kick_participant (session_id participant_id : Z)
    (reason : option string) (w : world) : world :=
  (* q = self.active.get(session_id, {}).pop(participant_id, None) *)
  let q := default ∅ (active w !! session_id) !! participant_id in
  let w := set_active (alter (delete participant_id) session_id) w in
  let w := set_SESSION_STATE
             (alter (λ s, mkSession (delete participant_id (connections s))
                                    (delete participant_id (participants s))
                                    (playback s)) session_id) w in
  let w :=
    match q with
    | Some q =>
        let w := try_except_QueueFull
                   (and_then (q_put_nowait q (PDict (kicked_msg reason)))
                             (q_put_nowait q PNone))
                   pass w in
        print (LogKicked participant_id session_id) w
    | None => w
    end in
  broadcast session_id (participant_kicked_msg participant_id) None w.

Definition disconnected_msg (reason : option string) : pydict :=
  {[ "type" := PStr "disconnected"; "reason" := PStr (str_or reason "Connection closed") ]}.

(** [WebSocketManager.disconnect_participant]. *)
Definition disconnect_participant (session_id participant_id : Z)
    (reason : option string) (w : world) : world :=
  let q := default ∅ (active w !! session_id) !! participant_id in
  let w := set_active (alter (delete participant_id) session_id) w in
  let w := set_SESSION_STATE
             (alter (λ s, mkSession (delete participant_id (connections s))
                                    (participants s) (playback s)) session_id) w in
  match q with
  | Some q =>
      try_except_QueueFull
        (and_then (q_put_nowait q (PDict (disconnected_msg reason)))
                  (q_put_nowait q PNone))
        pass w
  | None => w
  end.

(** ** Audio playback controls *)

Definition opt_str (o : option string) : pyval :=
  match o with
  | Some t => PStr t
  | None => PNone
  end.

Definition opt_float (o : option float) : pyval :=
  match o with
  | Some f => PFloat f
  | None => PNone
  end.

(** In-place change of [s["playback"]]. *)
Definition set_playback (f : pydict → pydict) (s : session) : session :=
  mkSession (connections s) (participants s) (f (playback s)).

(** [WebSocketManager.audio_select]. *)
Definition audio_select (session_id audio_id : Z) (title : option string)
    (w : world) : world :=
  let s := default (mkSession ∅ ∅ ∅) (SESSION_STATE w !! session_id) in
  let s := set_playback
             (dict_update {[ "audio_id" := PInt audio_id; "title" := opt_str title;
                             "status" := PStr "stopped"; "position" := PFloat 0.0%float ]}) s in
  let w := set_SESSION_STATE <[session_id := s]> w in
  broadcast session_id
    {[ "type" := PStr "audio_selected"; "audio_id" := PInt audio_id;
       "title" := opt_str title ]} None w.

(** [WebSocketManager.audio_play]; [audio_id] is an [int]. *)
Definition audio_play (session_id audio_id : Z) (speed position : float)
    (w : world) : world :=
  match SESSION_STATE w !! session_id with
  | None => w
  | Some s =>
      let s := set_playback
                 (dict_update {[ "status" := PStr "playing"; "audio_id" := PInt audio_id;
                                 "speed" := PFloat speed; "position" := PFloat position ]}) s in
      let w := set_SESSION_STATE <[session_id := s]> w in
      broadcast session_id
        {[ "type" := PStr "audio_play"; "audio_id" := PInt audio_id;
           "speed" := PFloat speed; "position" := PFloat position ]} None w
  end.

(** [WebSocketManager.audio_pause]. *)
Definition audio_pause (session_id : Z) (position : float) (w : world) : world :=
  match SESSION_STATE w !! session_id with
  | None => w
  | Some s =>
      let s := set_playback
                 (λ pb, <["position" := PFloat position]> (<["status" := PStr "paused"]> pb)) s in
      let w := set_SESSION_STATE <[session_id := s]> w in
      broadcast session_id
        {[ "type" := PStr "audio_pause"; "position" := PFloat position ]} None w
  end.

(** ** The REST handlers of [main.py] that drive the playback *)

(** The row of [models.AudioFile] the handlers read. *)
Record AudioFile := mkAudioFile {
  af_title : string;
  af_duration : option float;
}.

(** [schemas.AudioPlaybackControl]. *)
Record AudioPlaybackControl := mkControl {
  ctl_audio_id : option Z;
  ctl_speed : float;
  ctl_position : float;
  ctl_action : string;
}.

Inductive HTTPException :=
  | mkHTTPException (status_code : Z) (detail : string).

(** What ends a handler before its [return]: an [HTTPException] it raises,
    or the error of the database driver, which no handler catches (the
    client is answered with status 500). *)
Inductive raised :=
  | Raise (e : HTTPException)
  | DriverError.

(** The values of an [INTEGER] column, and the Python [int]s the driver
    binds to an [INTEGER] parameter: the signed 64-bit integers. *)
Definition INTEGER (a : Z) : bool :=
  (-9223372036854775808 <=? a) && (a <=? 9223372036854775807).

(** [await db.execute(select(AudioFile).filter(AudioFile.audio_id == audio_id))]
    raises in the driver when [audio_id] is an [int] that is no [INTEGER].
    The ids that reach the query are [int]s: the handlers' parameters are
    typed, and the stored id is [None] or one of them ([audio_ids_typed]). *)
Definition db_execute_raises (audio_id : pyval) : bool :=
  match audio_id with
  | PInt a => negb (INTEGER a)
  | _ => false
  end.

(** [select(AudioFile).filter(AudioFile.audio_id == audio_id)] followed by
    [scalar_one_or_none()], on the table [db] keyed by the primary key, for
    an [audio_id] the driver accepts.  The column holds [INTEGER]s only, so
    no row is read under any other key. *)
Definition db_audio_file (db : gmap Z AudioFile) (audio_id : pyval) : option AudioFile :=
  match audio_id with
  | PInt a => if INTEGER a then db !! a else None
  | _ => None
  end.

(** [rest_pause_audio]: calls the hub with the default position. *)
Definition rest_pause_audio (session_id : Z) (w : world) : pydict * world :=
  ({[ "ok" := PBool true ]}, audio_pause session_id 0.0%float w).

(** [control_audio_playback].  A raised [HTTPException] and the driver's
    error leave the state as they found it: every [raise] and the query come
    before the first update. *)
Definition control_audio_playback (db : gmap Z AudioFile) (session_id : Z)
    (control : AudioPlaybackControl) (w : world) : raised + pydict * world :=
  match SESSION_STATE w !! session_id with
  | None => inl (Raise (mkHTTPException 404 "Session not found"))
  | Some s =>
      let pb := playback s in
      (* if control.audio_id is None: control.audio_id = playback.get("audio_id") *)
      let audio_id :=
        match ctl_audio_id control with
        | Some a => PInt a
        | None => dict_get pb "audio_id"
        end in
      if is_none audio_id then inl (Raise (mkHTTPException 400 "No audio selected"))
      else if db_execute_raises audio_id then inl DriverError
      else
        match db_audio_file db audio_id with
        | None => inl (Raise (mkHTTPException 404 "Audio file not found"))
        | Some audio_file =>
            let finish (pb' : pydict) (action : string) :=
              let w := set_SESSION_STATE <[session_id := set_playback (λ _, pb') s]> w in
              let w := broadcast session_id
                         {[ "type" := PStr (String.append "audio_" action);
                            "audio_id" := audio_id;
                            "speed" := PFloat (ctl_speed control);
                            "position" := PFloat (ctl_position control);
                            "title" := PStr (af_title audio_file);
                            "duration" := opt_float (af_duration audio_file) ]} None w in
              inr ({[ "ok" := PBool true; "action" := PStr action;
                      "playback" := PDict pb' ]}, w) in
            if decide (ctl_action control = "play") then
              finish (dict_update
                        {[ "audio_id" := audio_id; "status" := PStr "playing";
                           "speed" := PFloat (ctl_speed control);
                           "position" := PFloat (ctl_position control);
                           "title" := PStr (af_title audio_file);
                           "duration" := opt_float (af_duration audio_file) ]} pb)
                     "play"
            else if decide (ctl_action control = "pause") then
              finish (dict_update
                        {[ "status" := PStr "paused";
                           "position" := PFloat (ctl_position control) ]} pb)
                     "pause"
            else if decide (ctl_action control = "seek") then
              let pb' := dict_update {[ "position" := PFloat (ctl_position control) ]} pb in
              (* if playback.get("status") == "playing": control.action = 'play' *)
              finish pb' (if py_eq_str (dict_get pb' "status") "playing"
                          then "play" else "seek")
            else inl (Raise (mkHTTPException 400 "Invalid action"))
        end
  end.

(** ** Observations used in the statements *)

(** [SESSION_STATE[session_id]["participants"].get(participant_id)]. *)
Definition roster_entry (session_id participant_id : Z) (w : world) : option pydict :=
  SESSION_STATE w !! session_id ≫= λ s, participants s !! participant_id.

(** A flag of the roster entry as [connect] reads it: [False] when the
    entry or the key is missing. *)
Definition roster_flag (session_id participant_id : Z) (k : string) (w : world) : pyval :=
  dict_get_default (default ∅ (roster_entry session_id participant_id w)) k (PBool false).

(** The queue registered for a participant in [self.active]. *)
Definition channel (session_id participant_id : Z) (w : world) : option qref :=
  active w !! session_id ≫= λ m, m !! participant_id.

(** The queue registered for a participant in [SESSION_STATE]. *)
Definition state_channel (session_id participant_id : Z) (w : world) : option qref :=
  SESSION_STATE w !! session_id ≫= λ s, connections s !! participant_id.

(** The playback dictionary of a session. *)
Definition session_playback (session_id : Z) (w : world) : option pydict :=
  playback <$> SESSION_STATE w !! session_id.

(** The pending items of the queue behind a reference. *)
Definition pending (q : qref) (w : world) : option (list pyval) :=
  items <$> heap w !! q.

(** Everything but the printed lines. *)
Definition hub_state (w : world) :=
  (active w, SESSION_STATE w, heap w).

(** The registry alone: sessions, rosters, playback and registered channels. *)
Definition registry (w : world) :=
  (active w, SESSION_STATE w).

(** A queue accepts [n] more items. *)
Definition has_room (c : Queue) (n : Z) : Prop :=
  maxsize c <= 0 ∨ qsize c + n <= maxsize c.

(** What one guarded [put_nowait(item)] leaves in a queue. *)
Definition push (item : pyval) (c : Queue) : Queue :=
  default c (put_nowait c item).

(** What [try: put_nowait(a); put_nowait(b)  except QueueFull: pass] leaves
    in a queue. *)
Definition push2 (a b : pyval) (c : Queue) : Queue :=
  match put_nowait c a with
  | Some c1 => push b c1
  | None => c
  end.

(** The effect of [deliver] on the queue it is given. *)
Definition delivered (exclude : gset Z) (message : pydict) (pid : Z) (c : Queue) : Queue :=
  if decide (pid ∈ exclude) then c else push (PDict message) c.

(** The playback invariant of one dictionary: a status other than
    ["stopped"] comes with an audio identifier. *)
Definition playback_ok (pb : pydict) : Prop :=
  py_eq_str (dict_get pb "status") "stopped" = false →
  is_none (dict_get pb "audio_id") = false.

Definition playback_invariant (w : world) : Prop :=
  ∀ session_id s, SESSION_STATE w !! session_id = Some s → playback_ok (playback s).

(** The registered queues of a session are distinct, existing objects. *)
Definition hub_wf (w : world) : Prop :=
  map_Forall (λ _ m,
    map_Forall (λ p1 q1,
      map_Forall (λ p2 q2, q1 = q2 → p1 = p2) m ∧ is_Some (heap w !! q1)) m)
    (active w).

#[global] Instance hub_wf_dec (w : world) : Decision (hub_wf w).
Proof. unfold hub_wf. apply _. Defined.

(** The message types of the calls to [broadcast], read off the line each
    call prints first. *)
Definition broadcast_types (lines : list log_line) : list pyval :=
  omap (λ line, match line with
                | LogNoConnections _ ty | LogBroadcast _ ty _ => Some ty
                | _ => None
                end) lines.

(** ** The states the hub can reach *)

(** One call of an operation of the hub, or of the control handler when it
    does not raise.  [db] is the table of audio files. *)
Inductive hub_step (db : gmap Z AudioFile) : world → world → Prop :=
  | step_connect S P u n t w :
      hub_step db w (connect S P u n t w).2
  | step_disconnect S P w :
      hub_step db w (disconnect S P w)
  | step_send_personal q M w :
      hub_step db w (send_personal q M w)
  | step_broadcast S M E w :
      hub_step db w (broadcast S M E w)
  | step_close_session S w :
      hub_step db w (close_session S w)
  | step_mute_participant S P m w :
      hub_step db w (mute_participant S P m w)
  | step_kick_participant S P reason w :
      hub_step db w (kick_participant S P reason w)
  | step_disconnect_participant S P reason w :
      hub_step db w (disconnect_participant S P reason w)
  | step_audio_select S a title w :
      hub_step db w (audio_select S a title w)
  | step_audio_play S a speed position w :
      hub_step db w (audio_play S a speed position w)
  | step_audio_pause S position w :
      hub_step db w (audio_pause S position w)
  | step_control S control w r w' :
      control_audio_playback db S control w = inr (r, w') →
      hub_step db w w'.

(** The states reached from a freshly started server. *)
Definition reachable (db : gmap Z AudioFile) (w : world) : Prop :=
  rtc (hub_step db) empty_world w.

(** ** Sample states *)

(** Ann (participant 10) alone in session 1; her queue is reference 0. *)
Definition ann_world : world := (connect 1 10 100 "Ann" false empty_world).2.

(** Ann and Bob (participant 11, queue reference 1) in session 1. *)
Definition class_world : world := (connect 1 11 101 "Bob" false ann_world).2.

Definition chat_msg : pydict := {[ "type" := PStr "chat"; "message" := PStr "hi" ]}.

(** An empty event, [{}]. *)
Definition keepalive : pydict := ∅.

(** The same class after 256 personal messages to Ann that her client has
    not drained: her queue is full. *)
Definition backlog_world : world :=
  Nat.iter 256 (send_personal 0%nat keepalive) class_world.

(** ** The claims as they are worded, for the cases that fail *)

(** "broadcast enqueues M exactly once onto every registered channel whose
    participant is not excluded". *)
Definition broadcast_reaches_all (S : Z) (M : pydict) (E : option (gset Z))
    (w : world) : Prop :=
  ∀ pid q old, channel S pid w = Some q → pid ∉ default ∅ E →
    pending q w = Some old →
    pending q (broadcast S M E w) = Some (old ++ [PDict M]).

(** "after close_session every channel that was registered has received
    session_ended followed by the sentinel". *)
Definition close_session_ends_all (S : Z) (w : world) : Prop :=
  ∀ pid q old, channel S pid w = Some q → pending q w = Some old →
    pending q (close_session S w)
    = Some (old ++ [PDict session_ended_msg; PNone]).

(** "the kicked participant's queue receives kicked followed by the
    sentinel". *)
Definition kick_ends_stream (S P : Z) (reason : option string) (w : world) : Prop :=
  ∀ q old, channel S P w = Some q → pending q w = Some old →
    pending q (kick_participant S P reason w)
    = Some (old ++ [PDict (kicked_msg reason); PNone]).

(** "after kick, mute is a no-op". *)
Definition mute_after_kick_is_noop (S P : Z) (reason : option string) (m : bool)
    (w : world) : Prop :=
  hub_state (mute_participant S P m (kick_participant S P reason w))
  = hub_state (kick_participant S P reason w).

(** ** The play endpoint and further observations *)

(** [audio_play] as Python runs it when the caller hands it whatever
    [playback.get("audio_id")] returned; on an [int] it is [audio_play]. *)
Definition audio_play_any (session_id : Z) (audio_id : pyval) (speed position : float)
    (w : world) : world :=
  match SESSION_STATE w !! session_id with
  | None => w
  | Some s =>
      let s := set_playback
                 (dict_update {[ "status" := PStr "playing"; "audio_id" := audio_id;
                                 "speed" := PFloat speed; "position" := PFloat position ]}) s in
      let w := set_SESSION_STATE <[session_id := s]> w in
      broadcast session_id
        {[ "type" := PStr "audio_play"; "audio_id" := audio_id;
           "speed" := PFloat speed; "position" := PFloat position ]} None w
  end.

(** The row [SessionLogger.log_event] adds to the [logs] table, without the
    time stamp. *)
Record log_request := mkLogRequest {
  lr_session_id : Z;
  lr_event_type : string;
  lr_user_id : Z;
  lr_details : pydict;
}.

(** [rest_play_audio], for the teacher [user_id] whom [require_teacher] let
    through.  The [logs] table is not modelled: [stores row] tells whether
    the database takes the row that [SessionLogger.log_audio_play] adds
    ([db.add], [commit], [refresh]); when it does not, the error of the
    driver ends the handler, after the hub has played.  The result holds
    what the client gets, with the row stored, and the state of the hub. *)
Definition rest_play_audio (stores : log_request → bool) (session_id : Z)
    (audio_id : option Z) (speed position : float) (user_id : Z) (w : world)
    : (raised + pydict * log_request) * world :=
  let audio_id :=
    match audio_id with
    | Some a => PInt a
    | None =>
        match SESSION_STATE w !! session_id with
        | Some s => dict_get (playback s) "audio_id"
        | None => PNone
        end
    end in
  if is_none audio_id
  then (inl (Raise (mkHTTPException 400 "No audio selected for this session")), w)
  else
    let w := audio_play_any session_id audio_id speed position w in
    let row := mkLogRequest session_id "audio_play" user_id
                 {[ "audio_id" := audio_id; "position" := PFloat position;
                    "speed" := PFloat speed ]} in
    if stores row then (inr ({[ "ok" := PBool true ]}, row), w)
    else (inl DriverError, w).

(** A queue after some more puts: same capacity, old items in front. *)
Definition grows (c c' : Queue) : Prop :=
  maxsize c' = maxsize c ∧ items c `prefix_of` items c'.

(** A queue as [connect] makes it, holding no more than it may. *)
Definition within_capacity (c : Queue) : Prop :=
  maxsize c = 256 ∧ qsize c <= 256.

Definition queues_bounded (w : world) : Prop :=
  ∀ q c, heap w !! q = Some c → within_capacity c.

(** [self.active] and the ["connections"] of [SESSION_STATE] name the same
    queue for every participant. *)
Definition registries_agree (w : world) : Prop :=
  ∀ S P, channel S P w = state_channel S P w.

(** One or more guarded puts: the queue grows and stays within its capacity
    when it was. *)
Definition fills (c c' : Queue) : Prop :=
  grows c c' ∧ (within_capacity c → within_capacity c').

(** The same for a whole store: no queue appears or disappears. *)
Definition heap_fills (h h' : gmap qref Queue) : Prop :=
  dom h' = dom h ∧
  ∀ q c', h' !! q = Some c' → ∃ c, h !! q = Some c ∧ fills c c'.

(** What a playback operation on a known session does, from [w] to [w']:
    the playback of [S] becomes [pb'] and [M] is broadcast to [S]; rosters,
    connections, other sessions and [self.active] stay, and every
    registered channel with room gets [M] once. *)
Definition playback_transition (S : Z) (pb' M : pydict) (w w' : world) : Prop :=
  session_playback S w' = Some pb' ∧
  (∀ P, roster_entry S P w' = roster_entry S P w) ∧
  (∀ P, state_channel S P w' = state_channel S P w) ∧
  (∀ S', S' ≠ S → SESSION_STATE w' !! S' = SESSION_STATE w !! S') ∧
  active w' = active w ∧
  broadcast_types (stdout w') = broadcast_types (stdout w) ++ [dict_get M "type"] ∧
  (hub_wf w → ∀ pid q c,
     channel S pid w = Some q → heap w !! q = Some c → has_room c 1 →
     heap w' !! q = Some (mkQueue (maxsize c) (items c ++ [PDict M]))).

(** The audio id the control handler works with: the one of the request,
    or else the stored one. *)
Definition control_audio_id (control : AudioPlaybackControl) (pb : pydict) : pyval :=
  match ctl_audio_id control with
  | Some a => PInt a
  | None => dict_get pb "audio_id"
  end.

(** The audio id that a playback dictionary holds is [None] or an [int],
    as the handlers' parameters are typed. *)
Definition audio_id_typed (pb : pydict) : Prop :=
  dict_get pb "audio_id" = PNone ∨ ∃ a, dict_get pb "audio_id" = PInt a.

Definition audio_ids_typed (w : world) : Prop :=
  ∀ S s, SESSION_STATE w !! S = Some s → audio_id_typed (playback s).

(** The message the control handler broadcasts for the action it ends up
    with. *)
Definition control_msg (action : string) (audio_id : pyval)
    (control : AudioPlaybackControl) (af : AudioFile) : pydict :=
  {[ "type" := PStr (String.append "audio_" action);
     "audio_id" := audio_id;
     "speed" := PFloat (ctl_speed control);
     "position" := PFloat (ctl_position control);
     "title" := PStr (af_title af);
     "duration" := opt_float (af_duration af) ]}.

(** A table with one audio file, number 7. *)
Definition sample_db : gmap Z AudioFile :=
  {[ 7 := mkAudioFile "T" (Some 12.5%float) ]}.

Definition sample_play : AudioPlaybackControl :=
  mkControl (Some 7) 1.5%float 3.0%float "play".



(** No queue is registered twice, in one session or in two. *)
Definition queues_unshared (w : world) : Prop :=
  ∀ S1 P1 S2 P2 q,
    channel S1 P1 w = Some q → channel S2 P2 w = Some q → (S1, P1) = (S2, P2).

(** The class, and Cy (participant 20, queue reference 2) alone in
    session 2. *)
Definition two_sessions_world : world := (connect 2 20 200 "Cy" true class_world).2.

(** * Properties *)

(** ** Queues *)

Lemma put_nowait_room (c : Queue) (item : pyval) :
  has_room c 1 → put_nowait c item = Some (mkQueue (maxsize c) (items c ++ [item])).
Proof.
  unfold has_room, put_nowait, full. intros Hroom.
  case_decide; [done|]. rewrite bool_decide_false; [done|lia].
Qed.

Lemma put_nowait_full (c : Queue) (item : pyval) :
  0 < maxsize c → maxsize c <= qsize c → put_nowait c item = None.
Proof.
  unfold put_nowait, full. intros Hpos Hfull.
  case_decide; [lia|]. by rewrite bool_decide_true.
Qed.

Lemma push_room (c : Queue) (item : pyval) :
  has_room c 1 → push item c = mkQueue (maxsize c) (items c ++ [item]).
Proof. intros Hroom. unfold push. by rewrite put_nowait_room. Qed.

Lemma push_full (c : Queue) (item : pyval) :
  0 < maxsize c → maxsize c <= qsize c → push item c = c.
Proof. intros Hpos Hfull. unfold push. by rewrite put_nowait_full. Qed.

Lemma push2_room (c : Queue) (a b : pyval) :
  has_room c 2 → push2 a b c = mkQueue (maxsize c) (items c ++ [a; b]).
Proof.
  intros Hroom. unfold push2.
  rewrite put_nowait_room; [|unfold has_room in *; lia].
  rewrite push_room; simpl.
  - by rewrite <- app_assoc.
  - unfold has_room, qsize in *; simpl. rewrite length_app; simpl. lia.
Qed.

Lemma push2_full (c : Queue) (a b : pyval) :
  0 < maxsize c → maxsize c <= qsize c → push2 a b c = c.
Proof. intros Hpos Hfull. unfold push2. by rewrite put_nowait_full. Qed.

(** A guarded put never shortens a queue: the old items stay in front. *)
Lemma push_prefix (c : Queue) (item : pyval) :
  maxsize (push item c) = maxsize c ∧ items c `prefix_of` items (push item c).
Proof.
  unfold push, put_nowait. destruct (full c); simpl; split; try done.
  by apply prefix_app_r.
Qed.

Lemma push2_prefix (c : Queue) (a b : pyval) :
  maxsize (push2 a b c) = maxsize c ∧ items c `prefix_of` items (push2 a b c).
Proof.
  unfold push2. destruct (put_nowait c a) as [c1|] eqn:Hput; [|done].
  destruct (push_prefix c1 b) as [Hm Hp].
  unfold put_nowait in Hput. destruct (full c); [done|].
  injection Hput as <-. simpl in *. split; [done|].
  etrans; [|exact Hp]. by apply prefix_app_r.
Qed.

(** ** Writes through a reference *)

Lemma alter_lookup_insert (h : gmap qref Queue) (q : qref) (c : Queue)
    (f : Queue → Queue) :
  h !! q = Some c → <[q := f c]> h = alter f q h.
Proof.
  intros Hq. apply map_eq. intros q'.
  destruct (decide (q = q')) as [<-|Hne].
  - by rewrite lookup_insert_eq, lookup_alter_eq, Hq.
  - by rewrite lookup_insert_ne, lookup_alter_ne.
Qed.

Lemma alter_lookup_same (h : gmap qref Queue) (q : qref) (f : Queue → Queue) :
  (∀ c, h !! q = Some c → f c = c) → alter f q h = h.
Proof.
  intros Hf. apply map_eq. intros q'.
  destruct (decide (q = q')) as [<-|Hne].
  - rewrite lookup_alter_eq. destruct (h !! q) as [c|] eqn:Hq; simpl; [|done].
    by rewrite Hf.
  - by rewrite lookup_alter_ne.
Qed.

Lemma q_put_nowait_registry (q : qref) (item : pyval) (w : world) :
  registry (q_put_nowait q item w).2 = registry w.
Proof.
  unfold q_put_nowait. destruct (heap w !! q) as [c|]; [|done].
  by destruct (put_nowait c item).
Qed.

(** One guarded put, whatever the handler prints. *)
Lemma put_or_log_heap (q : qref) (item : pyval) (line : log_line) (w : world) :
  heap (try_except_QueueFull (q_put_nowait q item) (print line) w)
  = alter (push item) q (heap w).
Proof.
  unfold try_except_QueueFull, q_put_nowait.
  destruct (heap w !! q) as [c|] eqn:Hq; simpl.
  - destruct (put_nowait c item) as [c'|] eqn:Hput; simpl.
    + rewrite <- (alter_lookup_insert _ _ c) by done. unfold push. by rewrite Hput.
    + symmetry. apply alter_lookup_same. intros c0 Hc0.
      unfold push. by simplify_eq; rewrite Hput.
  - symmetry. apply alter_lookup_same. intros c0 Hc0. congruence.
Qed.

Lemma put_or_log_registry (q : qref) (item : pyval) (line : log_line) (w : world) :
  registry (try_except_QueueFull (q_put_nowait q item) (print line) w) = registry w.
Proof.
  unfold try_except_QueueFull.
  pose proof (q_put_nowait_registry q item w) as Hreg.
  destruct (q_put_nowait q item w) as [[] w1]; simpl in *; done.
Qed.

(** Two puts in one [try] block whose handler is [pass]. *)
Lemma put2_or_pass_heap (q : qref) (a b : pyval) (w : world) :
  heap (try_except_QueueFull (and_then (q_put_nowait q a) (q_put_nowait q b)) pass w)
  = alter (push2 a b) q (heap w).
Proof.
  unfold try_except_QueueFull, and_then, pass, q_put_nowait at 1.
  destruct (heap w !! q) as [c|] eqn:Hq; simpl.
  - destruct (put_nowait c a) as [c1|] eqn:Hput; simpl.
    + unfold q_put_nowait; simpl. rewrite lookup_insert_eq.
      rewrite <- (alter_lookup_insert _ _ c) by done.
      unfold push2, push. rewrite Hput.
      destruct (put_nowait c1 b) as [c2|]; simpl; [|done].
      by rewrite insert_insert_eq.
    + symmetry. apply alter_lookup_same. intros c0 Hc0.
      unfold push2. by simplify_eq; rewrite Hput.
  - unfold q_put_nowait. rewrite Hq; simpl.
    symmetry. apply alter_lookup_same. intros c0 Hc0. congruence.
Qed.

Lemma put2_or_pass_registry (q : qref) (a b : pyval) (w : world) :
  registry (try_except_QueueFull (and_then (q_put_nowait q a) (q_put_nowait q b)) pass w)
  = registry w.
Proof.
  unfold try_except_QueueFull, and_then, pass.
  pose proof (q_put_nowait_registry q a w) as Ha.
  destruct (q_put_nowait q a w) as [[] w1]; simpl in *; [|done].
  pose proof (q_put_nowait_registry q b w1) as Hb.
  destruct (q_put_nowait q b w1) as [[] w2]; simpl in *; congruence.
Qed.

Lemma put2_or_pass_stdout (q : qref) (a b : pyval) (w : world) :
  stdout (try_except_QueueFull (and_then (q_put_nowait q a) (q_put_nowait q b)) pass w)
  = stdout w.
Proof.
  unfold try_except_QueueFull, and_then, pass, q_put_nowait.
  destruct (heap w !! q) as [c|] eqn:Hq; simpl; [|by rewrite Hq].
  destruct (put_nowait c a) as [c1|]; simpl; [|done].
  rewrite lookup_insert_eq. by destruct (put_nowait c1 b).
Qed.

(** ** Well-formed registries *)

Lemma hub_wf_spec (w : world) :
  hub_wf w ↔
  ∀ session_id m, active w !! session_id = Some m →
    (∀ p1 p2 q, m !! p1 = Some q → m !! p2 = Some q → p1 = p2) ∧
    (∀ p q, m !! p = Some q → is_Some (heap w !! q)).
Proof.
  unfold hub_wf. split.
  - intros Hwf S m Hm. specialize (Hwf S m Hm). simpl in Hwf. split.
    + intros p1 p2 q H1 H2. destruct (Hwf p1 q H1) as [Hinj _].
      by apply (Hinj p2 q H2).
    + intros p q Hp. by destruct (Hwf p q Hp).
  - intros Hwf S m Hm p1 q1 H1. destruct (Hwf S m Hm) as [Hinj Hex]. split.
    + intros p2 q2 H2 <-. by apply (Hinj p1 p2 q1).
    + by apply (Hex p1).
Qed.

Lemma hub_wf_lookup (w : world) (session_id : Z) (m : gmap Z qref) :
  hub_wf w → active w !! session_id = Some m →
  ∀ p1 p2 q, m !! p1 = Some q → m !! p2 = Some q → p1 = p2.
Proof. intros Hwf Hm. by destruct (proj1 (hub_wf_spec w) Hwf _ _ Hm). Qed.

(** Well-formedness only looks at [self.active] and at which queues exist. *)
Lemma hub_wf_frame (w w' : world) :
  active w' = active w → dom (heap w') = dom (heap w) → hub_wf w → hub_wf w'.
Proof.
  intros Ha Hd. rewrite !hub_wf_spec. intros Hwf S m Hm. rewrite Ha in Hm.
  destruct (Hwf S m Hm) as [Hinj Hex]. split; [done|].
  intros p q Hp. apply elem_of_dom. rewrite Hd. apply elem_of_dom. by eapply Hex.
Qed.

(** ** The delivery loop *)

Lemma broadcast_types_app (l1 l2 : list log_line) :
  broadcast_types (l1 ++ l2) = broadcast_types l1 ++ broadcast_types l2.
Proof. unfold broadcast_types. apply omap_app. Qed.

Section for_each.
Variable body : Z → qref → world → world.
Variable g : Z → Queue → Queue.

Hypothesis body_heap :
  ∀ pid q w, heap (body pid q w) = alter (g pid) q (heap w).
Hypothesis body_registry :
  ∀ pid q w, registry (body pid q w) = registry w.

Lemma for_each_registry (conns : list (Z * qref)) (w : world) :
  registry (for_each_conn body conns w) = registry w.
Proof.
  revert w. induction conns as [|[pid q] conns IH]; intros w; simpl; [done|].
  unfold for_each_conn in *; simpl. by rewrite IH, body_registry.
Qed.

(** A queue that is not in the snapshot is not written to. *)
Lemma for_each_heap_other (conns : list (Z * qref)) (w : world) (q : qref) :
  q ∉ conns.*2 → heap (for_each_conn body conns w) !! q = heap w !! q.
Proof.
  revert w. induction conns as [|[pid0 q0] conns IH]; intros w Hq; simpl; [done|].
  apply not_elem_of_cons in Hq as [Hne Hq]. simpl in Hne.
  unfold for_each_conn in *; simpl. rewrite IH by done.
  rewrite body_heap. by rewrite lookup_alter_ne.
Qed.

(** A queue that is in the snapshot once is written to exactly once, in
    whatever position it is listed. *)
Lemma for_each_heap_target (conns : list (Z * qref)) (w : world)
    (pid : Z) (q : qref) :
  NoDup conns.*2 → (pid, q) ∈ conns →
  heap (for_each_conn body conns w) !! q = g pid <$> heap w !! q.
Proof.
  revert w. induction conns as [|[pid0 q0] conns IH]; intros w Hnd Hin.
  - by apply elem_of_nil in Hin.
  - simpl in Hnd. apply NoDup_cons in Hnd as [Hq0 Hnd].
    change (for_each_conn body ((pid0, q0) :: conns) w)
      with (for_each_conn body conns (body pid0 q0 w)).
    apply elem_of_cons in Hin as [Heq|Hin].
    + injection Heq as -> ->.
      rewrite for_each_heap_other by done.
      by rewrite body_heap, lookup_alter_eq.
    + assert (q ≠ q0) as Hne.
      { intros ->. apply Hq0. apply list_elem_of_fmap. by exists (pid, q0). }
      rewrite IH by done. by rewrite body_heap, lookup_alter_ne.
Qed.

Lemma for_each_dom (conns : list (Z * qref)) (w : world) :
  dom (heap (for_each_conn body conns w)) = dom (heap w).
Proof.
  revert w. induction conns as [|[pid q] conns IH]; intros w; simpl; [done|].
  unfold for_each_conn in *; simpl. rewrite IH, body_heap.
  apply leibniz_equiv, dom_alter.
Qed.

(** When each write only appends, so does the whole loop. *)
Lemma for_each_prefix (conns : list (Z * qref)) (w : world) (q : qref) (c' : Queue) :
  (∀ pid c, maxsize (g pid c) = maxsize c ∧ items c `prefix_of` items (g pid c)) →
  heap (for_each_conn body conns w) !! q = Some c' →
  ∃ c, heap w !! q = Some c ∧ maxsize c' = maxsize c ∧
       items c `prefix_of` items c'.
Proof.
  intros Hg. revert w. induction conns as [|[pid0 q0] conns IH]; intros w Hq.
  - exists c'. done.
  - change (for_each_conn body ((pid0, q0) :: conns) w)
      with (for_each_conn body conns (body pid0 q0 w)) in Hq.
    apply IH in Hq as (c1 & Hc1 & Hm & Hp).
    rewrite body_heap in Hc1.
    destruct (decide (q0 = q)) as [->|Hne].
    + rewrite lookup_alter_eq in Hc1.
      destruct (heap w !! q) as [c|]; simpl in Hc1; [|done].
      injection Hc1 as <-. exists c. destruct (Hg pid0 c) as [Hm0 Hp0].
      split; [done|]. split; [congruence|]. by etrans.
    + rewrite lookup_alter_ne in Hc1 by done. by exists c1.
Qed.

Lemma for_each_broadcast_types (conns : list (Z * qref)) (w : world) :
  (∀ pid q w, broadcast_types (stdout (body pid q w)) = broadcast_types (stdout w)) →
  broadcast_types (stdout (for_each_conn body conns w)) = broadcast_types (stdout w).
Proof.
  intros Hb. revert w. induction conns as [|[pid q] conns IH]; intros w; simpl; [done|].
  unfold for_each_conn in *; simpl. by rewrite IH, Hb.
Qed.
(** A queue that no write changes comes out of the loop as it went in,
    however often it is listed. *)
Lemma for_each_heap_fixed (conns : list (Z * qref)) (w : world) (q : qref) (c : Queue) :
  (∀ pid, g pid c = c) → heap w !! q = Some c →
  heap (for_each_conn body conns w) !! q = Some c.
Proof.
  intros Hg. revert w. induction conns as [|[pid0 q0] conns IH]; intros w Hq; [done|].
  change (for_each_conn body ((pid0, q0) :: conns) w)
    with (for_each_conn body conns (body pid0 q0 w)).
  apply IH. rewrite body_heap. destruct (decide (q0 = q)) as [->|Hne].
  - by rewrite lookup_alter_eq, Hq; simpl; rewrite Hg.
  - by rewrite lookup_alter_ne.
Qed.
End for_each.

(** The snapshot of a well-formed session lists every queue once. *)
Lemma active_items_NoDup (session_id : Z) (w : world) :
  hub_wf w → NoDup (active_items session_id w).*2.
Proof.
  intros Hwf. unfold active_items.
  destruct (active w !! session_id) as [m|] eqn:Hm; simpl.
  - apply NoDup_fmap_2_strong; [|apply NoDup_map_to_list].
    intros [p1 q1] [p2 q2] H1 H2 Heq; simpl in Heq; subst q2.
    apply elem_of_map_to_list in H1, H2.
    by rewrite (hub_wf_lookup w session_id m Hwf Hm p1 p2 q1).
  - rewrite map_to_list_empty. constructor.
Qed.

Lemma elem_of_active_items (session_id pid : Z) (q : qref) (w : world) :
  (pid, q) ∈ active_items session_id w ↔ channel session_id pid w = Some q.
Proof.
  unfold active_items, channel. rewrite elem_of_map_to_list.
  destruct (active w !! session_id) as [m|]; simpl; [done|].
  by rewrite lookup_empty.
Qed.

(** ** What [broadcast] does *)

Lemma deliver_heap (exclude : gset Z) (message : pydict) (pid : Z) (q : qref) (w : world) :
  heap (deliver exclude message pid q w)
  = alter (delivered exclude message pid) q (heap w).
Proof.
  unfold deliver, delivered. case_decide.
  - symmetry. by apply alter_lookup_same.
  - apply put_or_log_heap.
Qed.

Lemma deliver_registry (exclude : gset Z) (message : pydict) (pid : Z) (q : qref) (w : world) :
  registry (deliver exclude message pid q w) = registry w.
Proof. unfold deliver. case_decide; [done|]. apply put_or_log_registry. Qed.

Lemma deliver_broadcast_types (exclude : gset Z) (message : pydict) (pid : Z)
    (q : qref) (w : world) :
  broadcast_types (stdout (deliver exclude message pid q w)) = broadcast_types (stdout w).
Proof.
  unfold deliver, try_except_QueueFull, q_put_nowait. case_decide; [done|].
  destruct (heap w !! q) as [c|]; [|done].
  destruct (put_nowait c (PDict message)); simpl; [done|].
  rewrite broadcast_types_app; simpl. apply app_nil_r.
Qed.

Lemma delivered_prefix (exclude : gset Z) (message : pydict) (pid : Z) (c : Queue) :
  maxsize (delivered exclude message pid c) = maxsize c ∧
  items c `prefix_of` items (delivered exclude message pid c).
Proof. unfold delivered. case_decide; [done|]. apply push_prefix. Qed.

Lemma broadcast_registry (S : Z) (message : pydict) (exclude : option (gset Z)) (w : world) :
  registry (broadcast S message exclude w) = registry w.
Proof.
  unfold broadcast. destruct (active_items S w) as [|pq conns]; [done|].
  erewrite for_each_registry; [done|]. intros. apply deliver_registry.
Qed.

Lemma broadcast_active (S : Z) (message : pydict) (exclude : option (gset Z)) (w : world) :
  active (broadcast S message exclude w) = active w.
Proof. pose proof (broadcast_registry S message exclude w) as H. by injection H. Qed.

Lemma broadcast_SESSION_STATE (S : Z) (message : pydict) (exclude : option (gset Z))
    (w : world) :
  SESSION_STATE (broadcast S message exclude w) = SESSION_STATE w.
Proof. pose proof (broadcast_registry S message exclude w) as H. by injection H. Qed.

Lemma broadcast_dom (S : Z) (message : pydict) (exclude : option (gset Z)) (w : world) :
  dom (heap (broadcast S message exclude w)) = dom (heap w).
Proof.
  unfold broadcast. destruct (active_items S w) as [|pq conns]; [done|].
  erewrite for_each_dom; [done|]. intros. apply deliver_heap.
Qed.

(** A queue that no participant of the session is registered with is left
    alone. *)
Lemma broadcast_heap_other (S : Z) (message : pydict) (exclude : option (gset Z))
    (w : world) (q : qref) :
  (∀ pid, channel S pid w ≠ Some q) →
  heap (broadcast S message exclude w) !! q = heap w !! q.
Proof.
  intros Hq. unfold broadcast.
  destruct (active_items S w) as [|pq conns] eqn:Hconns; [done|].
  erewrite for_each_heap_other; [done|intros; apply deliver_heap|].
  rewrite <- Hconns. intros Hin. apply list_elem_of_fmap in Hin as ([pid q'] & -> & Hin).
  apply elem_of_active_items in Hin. by apply (Hq pid).
Qed.

(** The queue of a registered participant gets the message once, or is
    skipped when the participant is excluded. *)
Lemma broadcast_heap_target (S : Z) (message : pydict) (exclude : option (gset Z))
    (w : world) (pid : Z) (q : qref) :
  hub_wf w → channel S pid w = Some q →
  heap (broadcast S message exclude w) !! q
  = delivered (default ∅ exclude) message pid <$> heap w !! q.
Proof.
  intros Hwf Hq. unfold broadcast.
  pose proof (active_items_NoDup S w Hwf) as Hnd.
  apply elem_of_active_items in Hq.
  destruct (active_items S w) as [|pq conns] eqn:Hconns.
  - by apply elem_of_nil in Hq.
  - by erewrite for_each_heap_target; [|intros; apply deliver_heap| |].
Qed.

Lemma broadcast_prefix (S : Z) (message : pydict) (exclude : option (gset Z))
    (w : world) (q : qref) (c' : Queue) :
  heap (broadcast S message exclude w) !! q = Some c' →
  ∃ c, heap w !! q = Some c ∧ maxsize c' = maxsize c ∧ items c `prefix_of` items c'.
Proof.
  unfold broadcast. destruct (active_items S w) as [|pq conns].
  - intros Hq. by exists c'.
  - intros Hq.
    eapply for_each_prefix in Hq; [exact Hq|intros; apply deliver_heap|].
    intros. apply delivered_prefix.
Qed.

(** Each call prints exactly one line that names the message type. *)
Lemma broadcast_broadcast_types (S : Z) (message : pydict) (exclude : option (gset Z))
    (w : world) :
  broadcast_types (stdout (broadcast S message exclude w))
  = broadcast_types (stdout w) ++ [dict_get message "type"].
Proof.
  unfold broadcast. destruct (active_items S w) as [|pq conns].
  - simpl. by rewrite broadcast_types_app.
  - rewrite for_each_broadcast_types by (intros; apply deliver_broadcast_types).
    simpl. by rewrite broadcast_types_app.
Qed.

(** ** Reconnection: C4 *)

Example connect_first :
  let '(q, w) := connect 1 10 100 "Ann" false empty_world in
  q = 0%nat ∧ active w !! 1 = Some {[ 10 := 0%nat ]} ∧
  roster_flag 1 10 "is_muted" w = PBool false.
Proof. vm_compute. done. Qed.

(** C4: reconnecting keeps the flags.  Whatever the state [w] before the
    disconnect, after [disconnect(S, P)] and [connect(S, P, u, n, t)] the
    roster entry of [P] has the [is_muted] and [raised_hand] values it had
    in [w], and the [user_id], [name] and [is_teacher] of the new call. *)
Theorem reconnect_preserves_flags (S P u : Z) (n : string) (t : bool) (w : world) :
  roster_entry S P (connect S P u n t (disconnect S P w)).2 =
    Some {[ "user_id" := PInt u; "name" := PStr n;
            "is_muted" := roster_flag S P "is_muted" w;
            "raised_hand" := roster_flag S P "raised_hand" w;
            "is_teacher" := PBool t ]}.
Proof.
  unfold roster_flag, roster_entry, connect, disconnect; simpl.
  rewrite lookup_insert_eq; simpl. rewrite lookup_insert_eq.
  f_equal. rewrite lookup_alter_eq.
  destruct (SESSION_STATE w !! S) as [s|]; simpl; done.
Qed.

(** ** Delivery: C3, C7 and C9 *)

Lemma broadcast_heap_full (S : Z) (M : pydict) (E : option (gset Z)) (w : world)
    (q : qref) (c : Queue) :
  heap w !! q = Some c → 0 < maxsize c → maxsize c <= qsize c →
  heap (broadcast S M E w) !! q = Some c.
Proof.
  intros Hq Hpos Hfull. unfold broadcast.
  destruct (active_items S w) as [|pq conns]; [done|].
  eapply for_each_heap_fixed; [intros; apply deliver_heap| |done].
  intros pid. unfold delivered. case_decide; [done|]. by apply push_full.
Qed.

Example backlog_world_wf : hub_wf backlog_world.
Proof. apply (bool_decide_unpack _). vm_compute. exact I. Qed.

Example backlog_world_full :
  (λ c, (maxsize c, qsize c)) <$> heap backlog_world !! 0%nat = Some (256, 256).
Proof. vm_compute. reflexivity. Qed.

Lemma not_append_one {A} (l : list A) (x : A) : l ≠ l ++ [x].
Proof.
  intros Heq. apply (f_equal length) in Heq.
  rewrite length_app in Heq. simpl in Heq. lia.
Qed.

(** C3, as worded, fails on a full queue: Ann's queue holds 256 items, she
    is registered and not excluded, and the broadcast leaves her queue as
    it was instead of adding the message. *)
Lemma broadcast_reaches_all_fails_when_full :
  ¬ broadcast_reaches_all 1 chat_msg None backlog_world.
Proof.
  intros Hall.
  assert (pending 0%nat backlog_world = Some (replicate 256 (PDict keepalive))) as Hold
    by (vm_compute; reflexivity).
  assert (pending 0%nat (broadcast 1 chat_msg None backlog_world)
          = Some (replicate 256 (PDict keepalive))) as Hsame
    by (vm_compute; reflexivity).
  assert (channel 1 10 backlog_world = Some 0%nat) as Hch
    by (vm_compute; reflexivity).
  specialize (Hall 10 0%nat _ Hch (not_elem_of_empty _) Hold).
  rewrite Hsame in Hall. by apply Some_inj, not_append_one in Hall.
Qed.

(** C3, amended: in a state whose registered queues are distinct objects,
    [broadcast(S, M, exclude=E)] appends [M] exactly once to the queue of
    every registered participant outside [E] whose queue has room, leaves a
    full queue as it was, leaves the queues of the participants in [E] as
    they were, and changes neither registry nor queues when [S] has no
    entry in [self.active]. *)
Theorem broadcast_delivery (S : Z) (M : pydict) (E : option (gset Z)) (w : world) :
  hub_wf w →
  (∀ pid q c, channel S pid w = Some q → pid ∉ default ∅ E →
     heap w !! q = Some c → has_room c 1 →
     heap (broadcast S M E w) !! q = Some (mkQueue (maxsize c) (items c ++ [PDict M]))) ∧
  (∀ pid q c, channel S pid w = Some q → pid ∉ default ∅ E →
     heap w !! q = Some c → 0 < maxsize c → maxsize c <= qsize c →
     heap (broadcast S M E w) !! q = Some c) ∧
  (∀ pid q, channel S pid w = Some q → pid ∈ default ∅ E →
     heap (broadcast S M E w) !! q = heap w !! q) ∧
  (active w !! S = None → hub_state (broadcast S M E w) = hub_state w).
Proof.
  intros Hwf. repeat split.
  - intros pid q c Hch Hex Hq Hroom.
    rewrite (broadcast_heap_target S M E w pid q Hwf Hch), Hq; simpl.
    unfold delivered. rewrite decide_False by done. by rewrite push_room.
  - intros pid q c Hch Hex Hq Hpos Hfull. by apply broadcast_heap_full.
  - intros pid q Hch Hex.
    rewrite (broadcast_heap_target S M E w pid q Hwf Hch).
    destruct (heap w !! q) as [c|]; simpl; [|done].
    unfold delivered. by rewrite decide_True.
  - intros Hnone. unfold broadcast, active_items. rewrite Hnone; simpl.
    by rewrite map_to_list_empty.
Qed.

Lemma broadcast_delivery_witness :
  hub_wf class_world ∧
  pending 1%nat (broadcast 1 chat_msg (Some {[10]}) class_world) = Some [PDict chat_msg] ∧
  pending 0%nat (broadcast 1 chat_msg (Some {[10]}) class_world) = Some [].
Proof.
  assert (hub_wf class_world) as Hwf
    by (apply (bool_decide_unpack _); vm_compute; exact I).
  destruct (broadcast_delivery 1 chat_msg (Some {[10]}) class_world Hwf)
    as (Hroom & _ & Hexcl & _).
  split; [exact Hwf|]. split.
  - unfold pending.
    assert (channel 1 11 class_world = Some 1%nat) as Hch by (vm_compute; reflexivity).
    assert (heap class_world !! 1%nat = Some (mkQueue 256 [])) as Hq
      by (vm_compute; reflexivity).
    assert (11 ∉ default (∅ : gset Z) (Some {[10]})) as Hex.
    { simpl. rewrite elem_of_singleton. discriminate. }
    rewrite (Hroom 11 1%nat (mkQueue 256 []) Hch Hex Hq).
    + reflexivity.
    + right. vm_compute. discriminate.
  - unfold pending.
    assert (channel 1 10 class_world = Some 0%nat) as Hch by (vm_compute; reflexivity).
    rewrite (Hexcl 10 0%nat Hch).
    + vm_compute. reflexivity.
    + simpl. apply elem_of_singleton. reflexivity.
Defined.

(** C9: [broadcast] and [send_personal] change no shared hub state.  The
    registry ([self.active] and [SESSION_STATE], hence every roster, every
    playback state and the set of registered channels) is the same after
    the call, no queue is created or removed, [broadcast] writes only to
    queues registered for the session and [send_personal] only to the
    queue it is given, and a write keeps the old items in front. *)
Theorem delivery_changes_no_hub_state (S : Z) (M : pydict) (E : option (gset Z))
    (queue : qref) (w : world) :
  (registry (broadcast S M E w) = registry w ∧
   dom (heap (broadcast S M E w)) = dom (heap w) ∧
   (∀ q, (∀ pid, channel S pid w ≠ Some q) →
      heap (broadcast S M E w) !! q = heap w !! q) ∧
   (∀ q c', heap (broadcast S M E w) !! q = Some c' →
      ∃ c, heap w !! q = Some c ∧ maxsize c' = maxsize c ∧
           items c `prefix_of` items c')) ∧
  (registry (send_personal queue M w) = registry w ∧
   dom (heap (send_personal queue M w)) = dom (heap w) ∧
   (∀ q, q ≠ queue → heap (send_personal queue M w) !! q = heap w !! q) ∧
   (∀ q c', heap (send_personal queue M w) !! q = Some c' →
      ∃ c, heap w !! q = Some c ∧ maxsize c' = maxsize c ∧
           items c `prefix_of` items c')).
Proof.
  split; repeat split.
  - apply broadcast_registry.
  - apply broadcast_dom.
  - apply broadcast_heap_other.
  - apply broadcast_prefix.
  - apply put_or_log_registry.
  - unfold send_personal. rewrite put_or_log_heap. apply leibniz_equiv, dom_alter.
  - intros q Hne. unfold send_personal. rewrite put_or_log_heap.
    by rewrite lookup_alter_ne.
  - intros q c'. unfold send_personal. rewrite put_or_log_heap.
    destruct (decide (queue = q)) as [->|Hne].
    + rewrite lookup_alter_eq. destruct (heap w !! q) as [c|]; simpl; [|done].
      intros [= <-]. exists c. split; [done|]. apply push_prefix.
    + rewrite lookup_alter_ne by done. intros Hq. by exists c'.
Qed.

(** C7: a queue of capacity 256 that holds 256 items drops a further
    message.  [send_personal] returns after printing its line and leaves
    registry and queues as they were; [broadcast] leaves the full queue as
    it was and, in a state whose registered queues are distinct objects,
    gives every other registered queue the message once (or skips it when
    its participant is excluded), whatever the full one holds. *)
Theorem full_channel_drops (q : qref) (c : Queue) (M : pydict) (w : world) :
  heap w !! q = Some c → maxsize c = 256 → qsize c = 256 →
  (hub_state (send_personal q M w) = hub_state w ∧
   stdout (send_personal q M w) = stdout w ++ [LogPersonalQueueFull]) ∧
  (∀ S E,
     heap (broadcast S M E w) !! q = Some c ∧
     (hub_wf w → ∀ pid' q', channel S pid' w = Some q' → q' ≠ q →
        heap (broadcast S M E w) !! q'
        = delivered (default ∅ E) M pid' <$> heap w !! q')).
Proof.
  intros Hq Hmax Hsize. split.
  - unfold send_personal, try_except_QueueFull, q_put_nowait. rewrite Hq.
    rewrite put_nowait_full by lia. done.
  - intros S E. split.
    + apply broadcast_heap_full; [done|lia|lia].
    + intros Hwf pid' q' Hch _. by apply broadcast_heap_target.
Qed.

Lemma hub_state_heap (w w' : world) : hub_state w' = hub_state w → heap w' = heap w.
Proof. unfold hub_state. by intros [= _ _ ->]. Qed.

Example backlog_ann_queue :
  heap backlog_world !! 0%nat = Some (mkQueue 256 (replicate 256 (PDict keepalive))).
Proof. vm_compute. reflexivity. Qed.

Example backlog_ann_size : qsize (mkQueue 256 (replicate 256 (PDict keepalive))) = 256.
Proof. vm_compute. reflexivity. Qed.

Example backlog_bob_channel : channel 1 11 backlog_world = Some 1%nat.
Proof. vm_compute. reflexivity. Qed.

Example backlog_bob_queue : heap backlog_world !! 1%nat = Some (mkQueue 256 []).
Proof. vm_compute. reflexivity. Qed.

Lemma full_channel_drops_witness :
  pending 0%nat (send_personal 0%nat chat_msg backlog_world)
    = Some (replicate 256 (PDict keepalive)) ∧
  pending 0%nat (broadcast 1 chat_msg None backlog_world)
    = Some (replicate 256 (PDict keepalive)) ∧
  pending 1%nat (broadcast 1 chat_msg None backlog_world) = Some [PDict chat_msg].
Proof.
  destruct (full_channel_drops 0%nat _ chat_msg backlog_world
              backlog_ann_queue eq_refl backlog_ann_size) as [[Hsend _] Hbcast].
  destruct (Hbcast 1 None) as [Hfull Hothers].
  split; [|split]; unfold pending.
  - rewrite (hub_state_heap _ _ Hsend), backlog_ann_queue. reflexivity.
  - rewrite Hfull. reflexivity.
  - rewrite (Hothers backlog_world_wf 11 1%nat backlog_bob_channel), backlog_bob_queue.
    + vm_compute. reflexivity.
    + discriminate.
Defined.

(** ** Disconnect: C5 *)

Lemma alter_delete_absent (a : gmap Z (gmap Z qref)) (S P : Z) :
  a !! S ≫= (λ m, m !! P) = None → alter (delete P) S a = a.
Proof.
  intros Habs. apply map_eq. intros S'.
  destruct (decide (S = S')) as [<-|Hne]; [|by rewrite lookup_alter_ne].
  rewrite lookup_alter_eq. destruct (a !! S) as [m|]; simpl in *; [|done].
  by rewrite delete_id.
Qed.

Lemma alter_unregister_absent (st : gmap Z session) (S P : Z) :
  st !! S ≫= (λ s, connections s !! P) = None →
  alter (λ s, mkSession (delete P (connections s)) (participants s) (playback s)) S st
  = st.
Proof.
  intros Habs. apply map_eq. intros S'.
  destruct (decide (S = S')) as [<-|Hne]; [|by rewrite lookup_alter_ne].
  rewrite lookup_alter_eq. destruct (st !! S) as [[cs ps pb]|]; simpl in *; [|done].
  by rewrite delete_id.
Qed.

Lemma disconnect_channel (S P S' P' : Z) (w : world) :
  channel S' P' (disconnect S P w)
  = if decide ((S', P') = (S, P)) then None else channel S' P' w.
Proof.
  unfold channel, disconnect; simpl. case_decide as Heq.
  - injection Heq as -> ->. rewrite lookup_alter_eq.
    destruct (active w !! S); simpl; [|done]. apply lookup_delete_eq.
  - destruct (decide (S = S')) as [<-|Hne]; [|by rewrite lookup_alter_ne].
    rewrite lookup_alter_eq. destruct (active w !! S); simpl; [|done].
    apply lookup_delete_ne. congruence.
Qed.

Lemma disconnect_state_channel (S P S' P' : Z) (w : world) :
  state_channel S' P' (disconnect S P w)
  = if decide ((S', P') = (S, P)) then None else state_channel S' P' w.
Proof.
  unfold state_channel, disconnect; simpl. case_decide as Heq.
  - injection Heq as -> ->. rewrite lookup_alter_eq.
    destruct (SESSION_STATE w !! S); simpl; [|done]. apply lookup_delete_eq.
  - destruct (decide (S = S')) as [<-|Hne]; [|by rewrite lookup_alter_ne].
    rewrite lookup_alter_eq. destruct (SESSION_STATE w !! S); simpl; [|done].
    apply lookup_delete_ne. congruence.
Qed.

Lemma disconnect_unregistered (S P : Z) (w : world) :
  channel S P w = None → state_channel S P w = None →
  hub_state (disconnect S P w) = hub_state w.
Proof.
  intros Hch Hst. unfold hub_state, disconnect; simpl.
  by rewrite alter_delete_absent, alter_unregister_absent.
Qed.

(** C5: [disconnect(S, P)] takes [P]'s queue out of both maps and changes
    nothing else: every other registration, every roster (the entry of [P]
    included), every playback state and every queue is as before.  A second
    [disconnect], or one for a participant without a registered queue,
    changes nothing. *)
Theorem disconnect_removes_only_channel (S P : Z) (w : world) :
  (channel S P (disconnect S P w) = None ∧
   state_channel S P (disconnect S P w) = None) ∧
  (∀ S' P', (S', P') ≠ (S, P) →
     channel S' P' (disconnect S P w) = channel S' P' w ∧
     state_channel S' P' (disconnect S P w) = state_channel S' P' w) ∧
  (∀ S', participants <$> SESSION_STATE (disconnect S P w) !! S'
         = participants <$> SESSION_STATE w !! S') ∧
  (∀ S', session_playback S' (disconnect S P w) = session_playback S' w) ∧
  heap (disconnect S P w) = heap w ∧
  hub_state (disconnect S P (disconnect S P w)) = hub_state (disconnect S P w) ∧
  (channel S P w = None → state_channel S P w = None →
   hub_state (disconnect S P w) = hub_state w).
Proof.
  split; [|split; [|split; [|split; [|split; [|split]]]]].
  - rewrite disconnect_channel, disconnect_state_channel.
    by rewrite !decide_True.
  - intros S' P' Hne. rewrite disconnect_channel, disconnect_state_channel.
    by rewrite !decide_False.
  - intros S'. unfold disconnect; simpl.
    destruct (decide (S = S')) as [<-|Hne]; [|by rewrite lookup_alter_ne].
    rewrite lookup_alter_eq. by destruct (SESSION_STATE w !! S).
  - intros S'. unfold session_playback, disconnect; simpl.
    destruct (decide (S = S')) as [<-|Hne]; [|by rewrite lookup_alter_ne].
    rewrite lookup_alter_eq. by destruct (SESSION_STATE w !! S).
  - done.
  - apply disconnect_unregistered.
    + rewrite disconnect_channel. by rewrite decide_True.
    + rewrite disconnect_state_channel. by rewrite decide_True.
  - apply disconnect_unregistered.
Qed.

Lemma disconnect_removes_only_channel_witness :
  roster_entry 1 10 (disconnect 1 10 class_world) = roster_entry 1 10 class_world ∧
  channel 1 10 (disconnect 1 10 class_world) = None ∧
  channel 1 11 (disconnect 1 10 class_world) = Some 1%nat ∧
  hub_state (disconnect 1 10 ann_world) ≠ hub_state ann_world ∧
  hub_state (disconnect 1 12 class_world) = hub_state class_world.
Proof.
  destruct (disconnect_removes_only_channel 1 10 class_world)
    as ([Hgone _] & Hothers & Hroster & _).
  destruct (disconnect_removes_only_channel 1 12 class_world)
    as (_ & _ & _ & _ & _ & _ & Hnoop).
  split; [|split; [|split; [|split]]].
  - unfold roster_entry. specialize (Hroster 1).
    destruct (SESSION_STATE (disconnect 1 10 class_world) !! 1),
             (SESSION_STATE class_world !! 1); simpl in *; congruence.
  - exact Hgone.
  - destruct (Hothers 1 11) as [-> _]; [discriminate|]. vm_compute. reflexivity.
  - intros Heq. apply (f_equal (λ st, st.1.1 !! 1 ≫= (λ m, m !! 10))) in Heq.
    vm_compute in Heq. discriminate Heq.
  - apply Hnoop; vm_compute; reflexivity.
Defined.

(** ** Closing a session: C6 *)

Lemma end_stream_heap (pid : Z) (q : qref) (w : world) :
  heap (end_stream pid q w)
  = alter (push2 (PDict session_ended_msg) PNone) q (heap w).
Proof. apply put2_or_pass_heap. Qed.

Lemma end_stream_registry (pid : Z) (q : qref) (w : world) :
  registry (end_stream pid q w) = registry w.
Proof. apply put2_or_pass_registry. Qed.

Lemma close_session_heap_target (S pid : Z) (q : qref) (w : world) :
  hub_wf w → channel S pid w = Some q →
  heap (close_session S w) !! q
  = push2 (PDict session_ended_msg) PNone <$> heap w !! q.
Proof.
  intros Hwf Hch. unfold close_session; simpl.
  apply (for_each_heap_target end_stream (λ _, push2 (PDict session_ended_msg) PNone))
    with (pid := pid).
  - apply end_stream_heap.
  - by apply active_items_NoDup.
  - by apply elem_of_active_items.
Qed.

Lemma close_session_heap_other (S : Z) (q : qref) (w : world) :
  (∀ pid, channel S pid w ≠ Some q) →
  heap (close_session S w) !! q = heap w !! q.
Proof.
  intros Hq. unfold close_session; simpl.
  apply (for_each_heap_other end_stream (λ _, push2 (PDict session_ended_msg) PNone)).
  - apply end_stream_heap.
  - intros Hin. apply list_elem_of_fmap in Hin as ([pid q'] & -> & Hin).
    apply elem_of_active_items in Hin. by apply (Hq pid).
Qed.

Example backlog_ann_channel : channel 1 10 backlog_world = Some 0%nat.
Proof. vm_compute. reflexivity. Qed.

Example backlog_ann_pending :
  pending 0%nat backlog_world = Some (replicate 256 (PDict keepalive)).
Proof. vm_compute. reflexivity. Qed.

Lemma not_append_two {A} (l : list A) (x y : A) : l ≠ l ++ [x; y].
Proof.
  intros Heq. apply (f_equal length) in Heq.
  rewrite length_app in Heq. simpl in Heq. lia.
Qed.

(** C6, as worded, fails on a full queue: [close_session] gives up on Ann's
    queue at the first [put_nowait], so her stream gets neither the
    ["session_ended"] message nor the sentinel. *)
Lemma close_session_ends_all_fails_when_full :
  ¬ close_session_ends_all 1 backlog_world.
Proof.
  intros Hall.
  specialize (Hall 10 0%nat _ backlog_ann_channel backlog_ann_pending).
  assert (pending 0%nat (close_session 1 backlog_world)
          = Some (replicate 256 (PDict keepalive))) as Hsame
    by (vm_compute; reflexivity).
  rewrite Hsame in Hall. by apply Some_inj, not_append_two in Hall.
Qed.

(** C6, amended: after [close_session(S)] the session is in neither
    [self.active] nor [SESSION_STATE], and, in a state whose registered
    queues are distinct objects, every queue that was registered for [S]
    and had room for two more items holds its old items followed by the
    ["session_ended"] message and the sentinel [None]. *)
Theorem close_session_closes (S : Z) (w : world) :
  hub_wf w →
  active (close_session S w) !! S = None ∧
  SESSION_STATE (close_session S w) !! S = None ∧
  (∀ pid q c, channel S pid w = Some q → heap w !! q = Some c → has_room c 2 →
     heap (close_session S w) !! q
     = Some (mkQueue (maxsize c) (items c ++ [PDict session_ended_msg; PNone]))).
Proof.
  intros Hwf. split; [|split].
  - unfold close_session; simpl. apply lookup_delete_eq.
  - unfold close_session; simpl. apply lookup_delete_eq.
  - intros pid q c Hch Hq Hroom.
    rewrite (close_session_heap_target S pid q w Hwf Hch), Hq; simpl.
    by rewrite push2_room.
Qed.

Example class_world_wf : hub_wf class_world.
Proof. apply (bool_decide_unpack _). vm_compute. exact I. Qed.

Example class_bob_channel : channel 1 11 class_world = Some 1%nat.
Proof. vm_compute. reflexivity. Qed.

Example class_bob_queue : heap class_world !! 1%nat = Some (mkQueue 256 []).
Proof. vm_compute. reflexivity. Qed.

Example empty_queue_room : has_room (mkQueue 256 []) 2.
Proof. right. vm_compute. discriminate. Qed.

Lemma close_session_closes_witness :
  active (close_session 1 class_world) !! 1 = None ∧
  pending 1%nat (close_session 1 class_world)
  = Some [PDict session_ended_msg; PNone].
Proof.
  destruct (close_session_closes 1 class_world class_world_wf) as (Hact & _ & Hq).
  split; [exact Hact|]. unfold pending.
  rewrite (Hq 11 1%nat _ class_bob_channel class_bob_queue empty_queue_room).
  reflexivity.
Defined.

(** ** Kick: C10, and the mute after it as C1 words it *)

(** The state of [kick_participant] after its locked section and its
    writes to the detached queue, before its broadcast. *)
Lemma kick_participant_unfold (S P : Z) (reason : option string) (w : world) :
  ∃ w1, kick_participant S P reason w
        = broadcast S (participant_kicked_msg P) None w1 ∧
    active w1 = alter (delete P) S (active w) ∧
    SESSION_STATE w1
    = alter (λ s, mkSession (delete P (connections s)) (delete P (participants s))
                            (playback s)) S (SESSION_STATE w) ∧
    heap w1 = match channel S P w with
              | Some q => alter (push2 (PDict (kicked_msg reason)) PNone) q (heap w)
              | None => heap w
              end ∧
    broadcast_types (stdout w1) = broadcast_types (stdout w).
Proof.
  unfold kick_participant, channel.
  destruct (active w !! S) as [m|] eqn:Hm; simpl.
  - destruct (m !! P) as [q|] eqn:Hq; simpl.
    + eexists. split; [reflexivity|]. simpl.
      rewrite put2_or_pass_heap.
      pose proof (put2_or_pass_registry q (PDict (kicked_msg reason)) PNone
        (set_SESSION_STATE
           (alter (λ s, mkSession (delete P (connections s))
                                  (delete P (participants s)) (playback s)) S)
           (set_active (alter (delete P) S) w))) as Hreg.
      unfold registry in Hreg. injection Hreg as -> ->.
      rewrite put2_or_pass_stdout; simpl.
      rewrite broadcast_types_app; simpl. by rewrite app_nil_r.
    + eexists. split; [reflexivity|]. done.
  - rewrite lookup_empty. eexists. split; [reflexivity|]. done.
Qed.

Lemma kick_participant_channel (S P pid : Z) (reason : option string) (w : world) :
  channel S pid (kick_participant S P reason w)
  = if decide (pid = P) then None else channel S pid w.
Proof.
  destruct (kick_participant_unfold S P reason w) as (w1 & -> & Hact & _).
  unfold channel. rewrite broadcast_active, Hact, lookup_alter_eq.
  destruct (active w !! S) as [m|]; simpl; [|by case_decide].
  case_decide as Heq.
  - subst. apply lookup_delete_eq.
  - by apply lookup_delete_ne.
Qed.

Lemma kick_participant_roster (S P : Z) (reason : option string) (w : world) :
  roster_entry S P (kick_participant S P reason w) = None.
Proof.
  destruct (kick_participant_unfold S P reason w) as (w1 & -> & _ & Hst & _).
  unfold roster_entry. rewrite broadcast_SESSION_STATE, Hst, lookup_alter_eq.
  destruct (SESSION_STATE w !! S) as [s|]; simpl; [|done]. apply lookup_delete_eq.
Qed.

Lemma kick_participant_state_channel (S P : Z) (reason : option string) (w : world) :
  state_channel S P (kick_participant S P reason w) = None.
Proof.
  destruct (kick_participant_unfold S P reason w) as (w1 & -> & _ & Hst & _).
  unfold state_channel. rewrite broadcast_SESSION_STATE, Hst, lookup_alter_eq.
  destruct (SESSION_STATE w !! S) as [s|]; simpl; [|done]. apply lookup_delete_eq.
Qed.

(** The queue taken from the kicked participant gets what the [try] block
    puts and nothing from the broadcast that follows. *)
Lemma kick_participant_own_queue (S P : Z) (reason : option string) (w : world)
    (q : qref) :
  hub_wf w → channel S P w = Some q →
  heap (kick_participant S P reason w) !! q
  = push2 (PDict (kicked_msg reason)) PNone <$> heap w !! q.
Proof.
  intros Hwf Hch.
  destruct (kick_participant_unfold S P reason w) as (w1 & -> & Hact & _ & Hheap & _).
  rewrite Hch in Hheap.
  rewrite broadcast_heap_other.
  - by rewrite Hheap, lookup_alter_eq.
  - intros pid Hpid. unfold channel in Hpid, Hch. rewrite Hact, lookup_alter_eq in Hpid.
    destruct (active w !! S) as [m|] eqn:Hm; simpl in *; [|done].
    destruct (decide (pid = P)) as [->|Hne].
    + by rewrite lookup_delete_eq in Hpid.
    + rewrite lookup_delete_ne in Hpid by done.
      by apply Hne, (hub_wf_lookup w S m Hwf Hm pid P q).
Qed.

Lemma kick_participant_detached (S P : Z) (reason : option string) (w : world)
    (q : qref) :
  hub_wf w → channel S P w = Some q →
  ∀ pid, channel S pid (kick_participant S P reason w) ≠ Some q.
Proof.
  intros Hwf Hch pid. rewrite kick_participant_channel. case_decide as Hne; [done|].
  intros Hpid. apply Hne. unfold channel in *.
  destruct (active w !! S) as [m|] eqn:Hm; simpl in *; [|done].
  by apply (hub_wf_lookup w S m Hwf Hm pid P q).
Qed.

(** C10, as worded, fails on a full queue: Ann's queue is taken out of the
    registry, but the ["kicked"] message and the sentinel do not fit. *)
Lemma kick_ends_stream_fails_when_full :
  ¬ kick_ends_stream 1 10 None backlog_world.
Proof.
  intros Hall.
  specialize (Hall 0%nat _ backlog_ann_channel backlog_ann_pending).
  assert (pending 0%nat (kick_participant 1 10 None backlog_world)
          = Some (replicate 256 (PDict keepalive))) as Hsame
    by (vm_compute; reflexivity).
  rewrite Hsame in Hall. by apply Some_inj, not_append_two in Hall.
Qed.

Lemma kicked_msg_not_notice (reason : option string) (P : Z) :
  PDict (participant_kicked_msg P) ≠ PDict (kicked_msg reason).
Proof.
  intros Heq.
  assert (participant_kicked_msg P !! "type" = kicked_msg reason !! "type") as Hty
    by congruence.
  vm_compute in Hty. discriminate Hty.
Qed.

(** C10, amended: in a state whose registered queues are distinct objects,
    [kick_participant(S, P, reason)] takes [P]'s queue out of the registry
    before the broadcast lists the channels (the broadcast runs in a state
    [w1] where no participant has that queue); the queue gets only what
    [put_nowait("kicked"); put_nowait(None)] leaves in it, which, when it
    had room for two more items, is the ["kicked"] message followed by the
    sentinel; the ["participant_kicked"] notice of the same call is never
    added to it. *)
Theorem kick_closes_own_channel (S P : Z) (reason : option string) (w : world)
    (q : qref) (c : Queue) :
  hub_wf w → channel S P w = Some q → heap w !! q = Some c →
  (∃ w1, kick_participant S P reason w
         = broadcast S (participant_kicked_msg P) None w1 ∧
         ∀ pid, channel S pid w1 ≠ Some q) ∧
  channel S P (kick_participant S P reason w) = None ∧
  (∀ pid, channel S pid (kick_participant S P reason w) ≠ Some q) ∧
  heap (kick_participant S P reason w) !! q
  = Some (push2 (PDict (kicked_msg reason)) PNone c) ∧
  (has_room c 2 →
   heap (kick_participant S P reason w) !! q
   = Some (mkQueue (maxsize c) (items c ++ [PDict (kicked_msg reason); PNone]))) ∧
  (PDict (participant_kicked_msg P) ∉ items c →
   PDict (participant_kicked_msg P)
     ∉ items (push2 (PDict (kicked_msg reason)) PNone c)).
Proof.
  intros Hwf Hch Hq.
  pose proof (kick_participant_own_queue S P reason w q Hwf Hch) as Hown.
  rewrite Hq in Hown; simpl in Hown.
  split; [|split; [|split; [|split; [|split]]]].
  - destruct (kick_participant_unfold S P reason w) as (w1 & Hk & _).
    exists w1. split; [done|]. intros pid.
    pose proof (kick_participant_detached S P reason w q Hwf Hch pid) as Hpid.
    unfold channel in *. by rewrite Hk, broadcast_active in Hpid.
  - rewrite kick_participant_channel. by rewrite decide_True.
  - by apply kick_participant_detached.
  - exact Hown.
  - intros Hroom. by rewrite Hown, push2_room.
  - intros Hold Hnew. unfold push2, push, put_nowait in Hnew.
    destruct (full c); [by apply Hold|]. simpl in Hnew.
    destruct (full _); simpl in Hnew.
    + apply elem_of_app in Hnew as [Hin|Hin]; [by apply Hold|].
      apply list_elem_of_singleton in Hin. by apply kicked_msg_not_notice in Hin.
    + rewrite <- app_assoc in Hnew.
      apply elem_of_app in Hnew as [Hin|Hin]; [by apply Hold|].
      apply elem_of_cons in Hin as [Hin|Hin].
      * by apply kicked_msg_not_notice in Hin.
      * apply list_elem_of_singleton in Hin. discriminate Hin.
Qed.

Example class_ann_channel : channel 1 10 class_world = Some 0%nat.
Proof. vm_compute. reflexivity. Qed.

Example class_ann_queue : heap class_world !! 0%nat = Some (mkQueue 256 []).
Proof. vm_compute. reflexivity. Qed.

Lemma kick_closes_own_channel_witness :
  channel 1 10 (kick_participant 1 10 None class_world) = None ∧
  pending 0%nat (kick_participant 1 10 None class_world)
  = Some [PDict (kicked_msg None); PNone].
Proof.
  destruct (kick_closes_own_channel 1 10 None class_world 0%nat _
              class_world_wf class_ann_channel class_ann_queue)
    as (_ & Hgone & _ & _ & Hroom & _).
  split; [exact Hgone|]. unfold pending.
  rewrite (Hroom empty_queue_room). reflexivity.
Defined.

(** What [mute_participant] does in a session that [SESSION_STATE] knows. *)
Lemma mute_participant_known (S P : Z) (m : bool) (w : world) (s : session) :
  SESSION_STATE w !! S = Some s →
  ∃ w0, mute_participant S P m w
        = print (LogMuted P m S) (broadcast S (participant_muted_msg P m) None w0) ∧
    active w0 = active w ∧ heap w0 = heap w ∧ stdout w0 = stdout w ∧
    SESSION_STATE w0
    = <[S := mkSession (connections s)
              (<[P := <["is_muted" := PBool m]> (default ∅ (participants s !! P))]>
                 (participants s))
              (playback s)]> (SESSION_STATE w).
Proof.
  intros Hs. unfold mute_participant. rewrite Hs.
  eexists. split; [reflexivity|]. done.
Qed.

(** C1, as worded, fails: Ann is kicked from the class and then muted; the
    mute puts an entry for her back into the roster. *)
Lemma mute_after_kick_is_noop_fails :
  ¬ mute_after_kick_is_noop 1 10 None true class_world.
Proof.
  intros Hnoop. unfold mute_after_kick_is_noop in Hnoop.
  apply (f_equal (λ st : gmap Z (gmap Z qref) * gmap Z session * gmap qref Queue,
                    st.1.2 !! 1 ≫= λ s, participants s !! 10 ≫= λ e, e !! "is_muted"))
    in Hnoop.
  vm_compute in Hnoop. discriminate Hnoop.
Qed.

(** ** Playback: C2, and the steps of C8 *)

Lemma dict_get_update_l (u d : pydict) (k : string) (v : pyval) :
  u !! k = Some v → dict_get (dict_update u d) k = v.
Proof.
  intros Hk. unfold dict_get, dict_update.
  by rewrite (lookup_union_Some_l u d k v Hk).
Qed.

Lemma dict_get_update_r (u d : pydict) (k : string) :
  u !! k = None → dict_get (dict_update u d) k = dict_get d k.
Proof.
  intros Hk. unfold dict_get, dict_update. by rewrite lookup_union_r.
Qed.

Lemma dict_get_insert_eq (d : pydict) (k : string) (v : pyval) :
  dict_get (<[k := v]> d) k = v.
Proof. unfold dict_get. by rewrite lookup_insert_eq. Qed.

Lemma dict_get_insert_ne (d : pydict) (k k' : string) (v : pyval) :
  k ≠ k' → dict_get (<[k := v]> d) k' = dict_get d k'.
Proof. intros Hne. unfold dict_get. by rewrite lookup_insert_ne. Qed.

(** Closes a goal that reads the sessions after [set_SESSION_STATE] and a
    broadcast. *)
Ltac session_rewritten :=
  rewrite broadcast_SESSION_STATE; simpl; reflexivity.

(** An operation that rewrites one session keeps the invariant when the
    new playback dictionary satisfies it. *)
Lemma playback_invariant_insert (w w' : world) (S : Z) (s' : session) :
  SESSION_STATE w' = <[S := s']> (SESSION_STATE w) →
  playback_ok (playback s') → playback_invariant w → playback_invariant w'.
Proof.
  intros Hst Hok Hinv S0 s0. rewrite Hst.
  destruct (decide (S = S0)) as [<-|Hne].
  - rewrite lookup_insert_eq. by intros [= <-].
  - rewrite lookup_insert_ne by done. apply Hinv.
Qed.

Lemma default_playback_ok : playback_ok default_playback.
Proof. intros Hstatus. vm_compute in Hstatus. discriminate Hstatus. Qed.

Lemma playback_invariant_connect (S P u : Z) (n : string) (t : bool) (w : world) :
  playback_invariant w → playback_invariant (connect S P u n t w).2.
Proof.
  intros Hinv. eapply playback_invariant_insert; [reflexivity| |exact Hinv].
  simpl. destruct (SESSION_STATE w !! S) as [s|] eqn:Hs; simpl.
  - by apply (Hinv S).
  - apply default_playback_ok.
Qed.

Lemma playback_invariant_audio_select (S a : Z) (title : option string) (w : world) :
  playback_invariant w → playback_invariant (audio_select S a title w).
Proof.
  intros Hinv. unfold audio_select.
  eapply playback_invariant_insert; [session_rewritten| |exact Hinv].
  intros Hstatus. simpl in Hstatus.
  rewrite (dict_get_update_l _ _ "status" (PStr "stopped")) in Hstatus by reflexivity.
  discriminate Hstatus.
Qed.

Lemma playback_invariant_audio_play (S a : Z) (speed position : float) (w : world) :
  playback_invariant w → playback_invariant (audio_play S a speed position w).
Proof.
  intros Hinv. unfold audio_play.
  destruct (SESSION_STATE w !! S) as [s|] eqn:Hs; [|done].
  eapply playback_invariant_insert; [session_rewritten| |exact Hinv].
  intros _. simpl.
  by rewrite (dict_get_update_l _ _ "audio_id" (PInt a)).
Qed.

(** [audio_pause] keeps the invariant only where an audio is selected. *)
Lemma playback_invariant_audio_pause (S : Z) (position : float) (w : world) :
  (∀ s, SESSION_STATE w !! S = Some s →
        is_none (dict_get (playback s) "audio_id") = false) →
  playback_invariant w → playback_invariant (audio_pause S position w).
Proof.
  intros Hsel Hinv. unfold audio_pause.
  destruct (SESSION_STATE w !! S) as [s|] eqn:Hs; [|done].
  eapply playback_invariant_insert; [session_rewritten| |exact Hinv].
  intros _. simpl.
  rewrite !dict_get_insert_ne by done. by apply Hsel.
Qed.

(** The control handler keeps the invariant for [play] and [seek]. *)
Lemma playback_invariant_control (db : gmap Z AudioFile) (S : Z)
    (control : AudioPlaybackControl) (w w' : world) (r : pydict) :
  ctl_action control ≠ "pause" →
  control_audio_playback db S control w = inr (r, w') →
  playback_invariant w → playback_invariant w'.
Proof.
  intros Hact Hrun Hinv. unfold control_audio_playback in Hrun.
  destruct (SESSION_STATE w !! S) as [s|] eqn:Hs; [|done].
  destruct (is_none _) eqn:Hnone; [done|].
  destruct (db_execute_raises _); [done|].
  destruct (db_audio_file db _) as [af|]; [|done].
  repeat case_decide; try done; injection Hrun as _ <-.
  - eapply playback_invariant_insert; [session_rewritten| |exact Hinv].
    intros _. simpl.
    erewrite dict_get_update_l; [exact Hnone|]. apply lookup_insert_eq.
  - eapply playback_invariant_insert; [session_rewritten| |exact Hinv].
    unfold playback_ok; simpl.
    rewrite !dict_get_update_r by reflexivity. by apply (Hinv S).
Qed.

(** The status and audio id of a session's playback, as the invariant reads
    them. *)
Lemma playback_invariant_reads (S : Z) (w : world) (status audio_id : pyval) :
  (SESSION_STATE w !! S ≫= λ s,
     Some (dict_get (playback s) "status", dict_get (playback s) "audio_id"))
  = Some (status, audio_id) →
  py_eq_str status "stopped" = false → is_none audio_id = true →
  ¬ playback_invariant w.
Proof.
  intros Hread Hstatus Hnone Hinv.
  destruct (SESSION_STATE w !! S) as [s|] eqn:Hs; simpl in Hread; [|done].
  injection Hread as <- <-. specialize (Hinv S s Hs Hstatus). congruence.
Qed.

(** C2 fails on the code: in the class that Ann alone has joined no audio
    was ever selected, and [POST /sessions/1/audio/pause] moves the
    playback to ["paused"] with [audio_id] still [None].  The invariant
    holds before the call and not after it. *)
Theorem pause_breaks_playback_invariant :
  playback_invariant ann_world ∧
  (session_playback 1 (rest_pause_audio 1 ann_world).2 ≫= λ pb,
     Some (dict_get pb "status", dict_get pb "audio_id"))
  = Some (PStr "paused", PNone) ∧
  ¬ playback_invariant (rest_pause_audio 1 ann_world).2.
Proof.
  split; [|split].
  - apply playback_invariant_connect. intros S s Hs. simpl in Hs.
    by rewrite lookup_empty in Hs.
  - vm_compute. reflexivity.
  - apply (playback_invariant_reads 1 _ (PStr "paused") PNone);
      vm_compute; reflexivity.
Qed.

(** The other path to the same state: the control handler given an audio
    id and the action [pause] in a session where nothing is selected. *)
Example control_pause_breaks_playback_invariant :
  match control_audio_playback {[ 7 := mkAudioFile "T" None ]} 1
          (mkControl (Some 7) 1.0%float 0.0%float "pause") ann_world with
  | inr (_, w') => ¬ playback_invariant w'
  | inl _ => False
  end.
Proof.
  destruct (control_audio_playback _ _ _ _) as [e|[r w']] eqn:Hrun.
  - vm_compute in Hrun. discriminate Hrun.
  - apply (playback_invariant_reads 1 _ (PStr "paused") PNone); [|done|done].
    apply (f_equal (λ x, match x with
                         | inr (_, w') =>
                             SESSION_STATE w' !! 1 ≫= λ s,
                               Some (dict_get (playback s) "status",
                                     dict_get (playback s) "audio_id")
                         | inl _ => None
                         end)) in Hrun.
    rewrite <- Hrun. vm_compute. reflexivity.
Qed.

(** The playback of a session after [audio_select]. *)
Lemma audio_select_session (S a : Z) (title : option string) (w : world) :
  ∃ s, SESSION_STATE (audio_select S a title w) !! S = Some s ∧
       dict_get (playback s) "audio_id" = PInt a ∧
       dict_get (playback s) "status" = PStr "stopped" ∧
       dict_get (playback s) "position" = PFloat 0.0%float ∧
       dict_get (playback s) "title" = opt_str title.
Proof.
  unfold audio_select. eexists. split.
  - rewrite broadcast_SESSION_STATE. simpl. apply lookup_insert_eq.
  - simpl. repeat split; (erewrite dict_get_update_l; [|reflexivity]); reflexivity.
Qed.

(** The playback of a session after the hub's [audio_play]. *)
Lemma audio_play_session (S a : Z) (speed position : float) (w : world) (s : session) :
  SESSION_STATE w !! S = Some s →
  ∃ s', SESSION_STATE (audio_play S a speed position w) !! S = Some s' ∧
        dict_get (playback s') "audio_id" = PInt a ∧
        dict_get (playback s') "status" = PStr "playing" ∧
        dict_get (playback s') "position" = PFloat position.
Proof.
  intros Hs. unfold audio_play. rewrite Hs. eexists. split.
  - rewrite broadcast_SESSION_STATE. simpl. apply lookup_insert_eq.
  - simpl. repeat split; (erewrite dict_get_update_l; [|reflexivity]); reflexivity.
Qed.


(** A [seek] through the control handler that names no audio, in a session
    where audio [a] is selected: the position is stored, every other key of
    the playback is as before, and the one broadcast is of type
    ["audio_play"] when the status is ["playing"] and ["audio_seek"]
    otherwise. *)
Lemma control_seek_session (db : gmap Z AudioFile) (S a : Z) (speed position : float)
    (w : world) (s : session) (af : AudioFile) :
  SESSION_STATE w !! S = Some s → dict_get (playback s) "audio_id" = PInt a →
  INTEGER a = true → db !! a = Some af →
  ∃ r w', control_audio_playback db S (mkControl None speed position "seek") w
          = inr (r, w') ∧
    session_playback S w' = Some (<["position" := PFloat position]> (playback s)) ∧
    broadcast_types (stdout w')
    = broadcast_types (stdout w)
      ++ [PStr (if py_eq_str (dict_get (playback s) "status") "playing"
                then "audio_play" else "audio_seek")].
Proof.
  intros Hs Hsel Hfits Hdb. unfold control_audio_playback. rewrite Hs; simpl.
  rewrite Hsel; simpl. rewrite Hfits; simpl. rewrite Hdb.
  eexists _, _. split; [reflexivity|]. split.
  - unfold session_playback. rewrite broadcast_SESSION_STATE. simpl.
    rewrite lookup_insert_eq. simpl. f_equal. unfold dict_update.
    by rewrite <- insert_union_singleton_l.
  - rewrite broadcast_broadcast_types. simpl. f_equal.
    rewrite dict_get_update_r by reflexivity.
    unfold dict_get at 1. rewrite lookup_insert_eq. simpl.
    by destruct (py_eq_str _ _).
Qed.

(** ** Every reachable state is well formed *)

(** Taking registrations away keeps a registry well formed. *)
Lemma hub_wf_shrink (w w' : world) :
  (∀ S m', active w' !! S = Some m' → ∃ m, active w !! S = Some m ∧ m' ⊆ m) →
  dom (heap w') = dom (heap w) → hub_wf w → hub_wf w'.
Proof.
  intros Hsub Hd. rewrite !hub_wf_spec. intros Hwf S m' Hm'.
  destruct (Hsub S m' Hm') as (m & Hm & Hincl).
  destruct (Hwf S m Hm) as [Hinj Hex]. split.
  - intros p1 p2 q H1 H2. apply (Hinj p1 p2 q); by eapply lookup_weaken.
  - intros p q Hp. apply elem_of_dom. rewrite Hd. apply elem_of_dom.
    apply (Hex p). by eapply lookup_weaken.
Qed.

Lemma alter_delete_shrink (a : gmap Z (gmap Z qref)) (S P S' : Z) (m' : gmap Z qref) :
  alter (delete P) S a !! S' = Some m' → ∃ m, a !! S' = Some m ∧ m' ⊆ m.
Proof.
  destruct (decide (S = S')) as [<-|Hne].
  - rewrite lookup_alter_eq. destruct (a !! S) as [m|]; simpl; [|done].
    intros [= <-]. exists m. split; [done|]. apply delete_subseteq.
  - rewrite lookup_alter_ne by done. intros Hm. by exists m'.
Qed.

Lemma hub_wf_connect (S P u : Z) (n : string) (t : bool) (w : world) :
  hub_wf w → hub_wf (connect S P u n t w).2.
Proof.
  rewrite !hub_wf_spec. intros Hwf S' m' Hm'. simpl in Hm'.
  pose proof (is_fresh (dom (heap w))) as Hfresh.
  set (q := fresh (dom (heap w))) in *.
  assert (∀ S0 m p, active w !! S0 = Some m → m !! p ≠ Some q) as Hnew.
  { intros S0 m p Hm Hp. destruct (Hwf S0 m Hm) as [_ Hex].
    apply Hfresh, elem_of_dom. by apply (Hex p). }
  destruct (decide (S = S')) as [<-|Hne].
  - rewrite lookup_insert_eq in Hm'. injection Hm' as <-.
    assert (∀ p, p ≠ P → default ∅ (active w !! S) !! p ≠ Some q) as Hold.
    { intros p _. destruct (active w !! S) as [m|] eqn:Hm; simpl.
      - by apply (Hnew S).
      - by rewrite lookup_empty. }
    split.
    + intros p1 p2 q0 H1 H2.
      destruct (decide (p1 = P)) as [->|Hp1], (decide (p2 = P)) as [->|Hp2]; [done|..].
      * rewrite lookup_insert_eq in H1. rewrite lookup_insert_ne in H2 by done.
        injection H1 as <-. by apply Hold in H2.
      * rewrite lookup_insert_eq in H2. rewrite lookup_insert_ne in H1 by done.
        injection H2 as <-. by apply Hold in H1.
      * rewrite lookup_insert_ne in H1, H2 by done.
        destruct (active w !! S) as [m|] eqn:Hm; simpl in *.
        -- destruct (Hwf S m Hm) as [Hinj _]. by apply (Hinj p1 p2 q0).
        -- by rewrite lookup_empty in H1.
    + intros p q0 Hp. simpl. destruct (decide (p = P)) as [->|Hp1].
      * rewrite lookup_insert_eq in Hp. injection Hp as <-.
        rewrite lookup_insert_eq. by eexists.
      * rewrite lookup_insert_ne in Hp by done.
        destruct (active w !! S) as [m|] eqn:Hm; simpl in *.
        -- destruct (Hwf S m Hm) as [_ Hex].
           destruct (Hex p q0 Hp) as [c Hc].
           rewrite lookup_insert_ne; [by eexists|].
           intros <-. by apply (Hnew S m p Hm).
        -- by rewrite lookup_empty in Hp.
  - rewrite lookup_insert_ne in Hm' by done.
    destruct (Hwf S' m' Hm') as [Hinj Hex]. split; [done|].
    intros p q0 Hp. simpl. destruct (Hex p q0 Hp) as [c Hc].
    rewrite lookup_insert_ne; [by eexists|].
    intros <-. by apply (Hnew S' m' p Hm').
Qed.

Lemma hub_wf_kick_participant (S P : Z) (reason : option string) (w : world) :
  hub_wf w → hub_wf (kick_participant S P reason w).
Proof.
  destruct (kick_participant_unfold S P reason w) as (w1 & -> & Hact & _ & Hheap & _).
  apply hub_wf_shrink.
  - intros S' m'. rewrite broadcast_active, Hact. apply alter_delete_shrink.
  - rewrite broadcast_dom, Hheap. destruct (channel S P w); [|done].
    apply leibniz_equiv, dom_alter.
Qed.

Lemma hub_wf_disconnect_participant (S P : Z) (reason : option string) (w : world) :
  hub_wf w → hub_wf (disconnect_participant S P reason w).
Proof.
  unfold disconnect_participant. apply hub_wf_shrink.
  - intros S' m'. destruct (_ !! P) as [q|].
    + pose proof (put2_or_pass_registry q (PDict (disconnected_msg reason)) PNone
        (set_SESSION_STATE
           (alter (λ s, mkSession (delete P (connections s)) (participants s)
                                  (playback s)) S)
           (set_active (alter (delete P) S) w))) as Hreg.
      unfold registry in Hreg. injection Hreg as -> _. apply alter_delete_shrink.
    + apply alter_delete_shrink.
  - destruct (_ !! P) as [q|]; [|done].
    rewrite put2_or_pass_heap. apply leibniz_equiv, dom_alter.
Qed.

Lemma hub_wf_close_session (S : Z) (w : world) :
  hub_wf w → hub_wf (close_session S w).
Proof.
  unfold close_session. apply hub_wf_shrink; simpl.
  - intros S' m'.
    pose proof (for_each_registry end_stream end_stream_registry
                  (active_items S w) w) as Hreg.
    unfold registry in Hreg. injection Hreg as -> _.
    intros Hm'. exists m'. split; [|done].
    by apply lookup_delete_Some in Hm' as [_ Hm'].
  - apply (for_each_dom end_stream _ end_stream_heap).
Qed.

Lemma hub_wf_mute_participant (S P : Z) (m : bool) (w : world) :
  hub_wf w → hub_wf (mute_participant S P m w).
Proof.
  destruct (SESSION_STATE w !! S) as [s|] eqn:Hs.
  - destruct (mute_participant_known S P m w s Hs) as (w0 & -> & Hact & Hheap & _).
    apply hub_wf_frame; simpl.
    + by rewrite broadcast_active.
    + by rewrite broadcast_dom, Hheap.
  - unfold mute_participant. by rewrite Hs.
Qed.

(** Solves the two side conditions of [hub_wf_frame] for an operation that
    changes [SESSION_STATE] and then broadcasts. *)
Ltac frame_after_broadcast :=
  apply hub_wf_frame; [by rewrite broadcast_active|by rewrite broadcast_dom].

Lemma hub_wf_step (db : gmap Z AudioFile) (w w' : world) :
  hub_step db w w' → hub_wf w → hub_wf w'.
Proof.
  intros Hstep.
  destruct Hstep as [S P u n t w|S P w|q M w|S M E w|S w|S P m w|S P r w|S P r w
                    |S a title w|S a speed position w|S position w|S control w r w' Hrun].
  - apply hub_wf_connect.
  - apply hub_wf_shrink; [|done]. intros S' m'. apply alter_delete_shrink.
  - unfold send_personal. apply hub_wf_frame.
    + pose proof (put_or_log_registry q (PDict M) LogPersonalQueueFull w) as Hreg.
      unfold registry in Hreg. by injection Hreg as -> _.
    + rewrite put_or_log_heap. apply leibniz_equiv, dom_alter.
  - apply hub_wf_frame; [apply broadcast_active|apply broadcast_dom].
  - apply hub_wf_close_session.
  - apply hub_wf_mute_participant.
  - apply hub_wf_kick_participant.
  - apply hub_wf_disconnect_participant.
  - unfold audio_select. frame_after_broadcast.
  - unfold audio_play. destruct (SESSION_STATE w !! S); [|done]. frame_after_broadcast.
  - unfold audio_pause. destruct (SESSION_STATE w !! S); [|done]. frame_after_broadcast.
  - unfold control_audio_playback in Hrun.
    destruct (SESSION_STATE w !! S) as [s|]; [|done].
    destruct (is_none _); [done|].
    destruct (db_execute_raises _); [done|].
    destruct (db_audio_file db _) as [af|]; [|done].
    repeat case_decide; try done; injection Hrun as _ <-; frame_after_broadcast.
Qed.

(** Every state the hub reaches from a fresh start has, in each session,
    distinct and existing queues: the hypothesis [hub_wf] of the theorems
    above costs nothing. *)
Lemma reachable_wf (db : gmap Z AudioFile) (w : world) :
  reachable db w → hub_wf w.
Proof.
  unfold reachable. intros Hreach.
  apply (rtc_ind_r (R := hub_step db) hub_wf empty_world); [| |exact Hreach].
  - apply hub_wf_spec. intros S m Hm. simpl in Hm. by rewrite lookup_empty in Hm.
  - intros w1 w2 _ Hstep Hwf. by eapply hub_wf_step.
Qed.

Example class_world_reachable : reachable ∅ class_world.
Proof.
  unfold class_world, ann_world.
  eapply rtc_l; [apply step_connect|].
  eapply rtc_l; [apply step_connect|]. apply rtc_refl.
Qed.

(** The state with the full queue, on which the worded claims C3, C6 and
    C10 fail, is one the hub reaches. *)
Example backlog_world_reachable : reachable ∅ backlog_world.
Proof.
  unfold backlog_world, class_world, ann_world.
  assert (∀ n w, reachable ∅ w →
            reachable ∅ (Nat.iter n (send_personal 0%nat keepalive) w)) as Hiter.
  { induction n as [|n IH]; intros w Hw; [done|].
    simpl. eapply rtc_r; [by apply IH|]. constructor. }
  apply Hiter. eapply rtc_l; [apply step_connect|].
  eapply rtc_l; [apply step_connect|]. apply rtc_refl.
Qed.

(** * Further properties of the hub *)

(** ** connect *)

Lemma channel_default (S P : Z) (w : world) :
  default ∅ (active w !! S) !! P = channel S P w.
Proof.
  unfold channel. destruct (active w !! S); simpl; [done|]. apply lookup_empty.
Qed.

Lemma connect_channel (S P u : Z) (n : string) (t : bool) (w : world) (S' P' : Z) :
  channel S' P' (connect S P u n t w).2
  = if decide ((S', P') = (S, P)) then Some (connect S P u n t w).1
    else channel S' P' w.
Proof.
  unfold channel at 1. simpl. case_decide as Heq.
  - injection Heq as -> ->. rewrite lookup_insert_eq; simpl. apply lookup_insert_eq.
  - destruct (decide (S = S')) as [<-|Hne].
    + rewrite lookup_insert_eq; simpl. rewrite lookup_insert_ne by congruence.
      apply channel_default.
    + by rewrite lookup_insert_ne.
Qed.

Lemma connect_state_channel (S P u : Z) (n : string) (t : bool) (w : world) (S' P' : Z) :
  state_channel S' P' (connect S P u n t w).2
  = if decide ((S', P') = (S, P)) then Some (connect S P u n t w).1
    else state_channel S' P' w.
Proof.
  unfold state_channel. simpl. case_decide as Heq.
  - injection Heq as -> ->. rewrite lookup_insert_eq; simpl. apply lookup_insert_eq.
  - destruct (decide (S = S')) as [<-|Hne].
    + rewrite lookup_insert_eq; simpl. rewrite lookup_insert_ne by congruence.
      destruct (SESSION_STATE w !! S); simpl; [done|]. apply lookup_empty.
    + by rewrite lookup_insert_ne.
Qed.

(** X1: [connect] makes a queue that did not exist, empty and of capacity
    256, and registers it for the participant in both maps, in place of any
    queue registered before.  Every other queue (the replaced one too: it
    gets no sentinel), every other registration, every other roster entry
    and every other session is as before; the playback of the session is
    kept, or is the default one when the session is new. *)
Theorem connect_registers_fresh_queue (S P u : Z) (n : string) (t : bool) (w : world) :
  heap w !! (connect S P u n t w).1 = None ∧
  heap (connect S P u n t w).2 !! (connect S P u n t w).1 = Some (mkQueue 256 []) ∧
  channel S P (connect S P u n t w).2 = Some (connect S P u n t w).1 ∧
  state_channel S P (connect S P u n t w).2 = Some (connect S P u n t w).1 ∧
  (∀ q, q ≠ (connect S P u n t w).1 →
     heap (connect S P u n t w).2 !! q = heap w !! q) ∧
  (∀ S' P', (S', P') ≠ (S, P) →
     channel S' P' (connect S P u n t w).2 = channel S' P' w ∧
     state_channel S' P' (connect S P u n t w).2 = state_channel S' P' w) ∧
  (∀ P', P' ≠ P →
     roster_entry S P' (connect S P u n t w).2 = roster_entry S P' w) ∧
  (∀ S', S' ≠ S →
     SESSION_STATE (connect S P u n t w).2 !! S' = SESSION_STATE w !! S') ∧
  session_playback S (connect S P u n t w).2
  = Some (default default_playback (session_playback S w)).
Proof.
  split; [|split; [|split; [|split; [|split; [|split; [|split; [|split]]]]]]].
  - simpl. apply not_elem_of_dom, is_fresh.
  - simpl. apply lookup_insert_eq.
  - rewrite connect_channel. by rewrite decide_True.
  - rewrite connect_state_channel. by rewrite decide_True.
  - intros q Hq. simpl. by rewrite lookup_insert_ne.
  - intros S' P' Hne. rewrite connect_channel, connect_state_channel.
    by rewrite !decide_False.
  - intros P' Hne. unfold roster_entry. simpl. rewrite lookup_insert_eq; simpl.
    rewrite lookup_insert_ne by done.
    destruct (SESSION_STATE w !! S); simpl; [done|]. apply lookup_empty.
  - intros S' Hne. simpl. by rewrite lookup_insert_ne.
  - unfold session_playback. simpl. rewrite lookup_insert_eq; simpl.
    by destruct (SESSION_STATE w !! S).
Qed.

Lemma connect_registers_fresh_queue_witness :
  pending 0%nat (connect 1 10 100 "Ann" true class_world).2 = Some [] ∧
  channel 1 11 (connect 1 10 100 "Ann" true class_world).2 = Some 1%nat.
Proof.
  destruct (connect_registers_fresh_queue 1 10 100 "Ann" true class_world)
    as (_ & _ & _ & _ & Hqueues & Hothers & _).
  split.
  - unfold pending. rewrite Hqueues; [by rewrite class_ann_queue|].
    vm_compute. discriminate.
  - destruct (Hothers 1 11) as [-> _]; [discriminate|]. apply class_bob_channel.
Defined.

(** ** Queues only fill *)

Lemma fills_refl (c : Queue) : fills c c.
Proof. split; [by split|done]. Qed.

Lemma fills_trans (c1 c2 c3 : Queue) : fills c1 c2 → fills c2 c3 → fills c1 c3.
Proof.
  intros [[Hm1 Hp1] Hb1] [[Hm2 Hp2] Hb2]. split; [split|].
  - congruence.
  - by etrans.
  - intros Hcap. by apply Hb2, Hb1.
Qed.

Lemma fills_push (item : pyval) (c : Queue) : fills c (push item c).
Proof.
  split; [apply push_prefix|].
  intros [Hmax Hsize]. unfold push, put_nowait, full.
  case_decide; [lia|]. case_bool_decide; simpl; [done|].
  split; [done|]. unfold qsize in *; simpl. rewrite length_app; simpl. lia.
Qed.

Lemma fills_push2 (a b : pyval) (c : Queue) : fills c (push2 a b c).
Proof.
  unfold push2. destruct (put_nowait c a) as [c1|] eqn:Hput; [|apply fills_refl].
  apply (fills_trans _ c1); [|apply fills_push].
  pose proof (fills_push a c) as Hfill. unfold push in Hfill. by rewrite Hput in Hfill.
Qed.

Lemma fills_delivered (exclude : gset Z) (message : pydict) (pid : Z) (c : Queue) :
  fills c (delivered exclude message pid c).
Proof. unfold delivered. case_decide; [apply fills_refl|apply fills_push]. Qed.

Lemma heap_fills_refl (h : gmap qref Queue) : heap_fills h h.
Proof. split; [done|]. intros q c Hq. exists c. split; [done|apply fills_refl]. Qed.

Lemma heap_fills_trans (h1 h2 h3 : gmap qref Queue) :
  heap_fills h1 h2 → heap_fills h2 h3 → heap_fills h1 h3.
Proof.
  intros [Hd1 H1] [Hd2 H2]. split; [congruence|].
  intros q c3 Hq. destruct (H2 q c3 Hq) as (c2 & Hq2 & Hf2).
  destruct (H1 q c2 Hq2) as (c1 & Hq1 & Hf1).
  exists c1. split; [done|]. by eapply fills_trans.
Qed.

Lemma heap_fills_alter (f : Queue → Queue) (q : qref) (h : gmap qref Queue) :
  (∀ c, fills c (f c)) → heap_fills h (alter f q h).
Proof.
  intros Hf. split; [apply leibniz_equiv, dom_alter|].
  intros q' c' Hq'. destruct (decide (q = q')) as [<-|Hne].
  - rewrite lookup_alter_eq in Hq'. destruct (h !! q) as [c|]; simpl in Hq'; [|done].
    injection Hq' as <-. by exists c.
  - rewrite lookup_alter_ne in Hq' by done. exists c'. split; [done|apply fills_refl].
Qed.

(** A store read forwards: every queue is still there, and has grown. *)
Lemma heap_fills_lookup (h h' : gmap qref Queue) (q : qref) (c : Queue) :
  heap_fills h h' → h !! q = Some c → ∃ c', h' !! q = Some c' ∧ fills c c'.
Proof.
  intros [Hd Hback] Hq.
  assert (is_Some (h' !! q)) as [c' Hq'].
  { apply elem_of_dom. rewrite Hd. apply elem_of_dom. by eexists. }
  destruct (Hback q c' Hq') as (c0 & Hq0 & Hfill).
  exists c'. split; [done|]. congruence.
Qed.

Lemma for_each_heap_fills (body : Z → qref → world → world) (g : Z → Queue → Queue)
    (conns : list (Z * qref)) (w : world) :
  (∀ pid q w, heap (body pid q w) = alter (g pid) q (heap w)) →
  (∀ pid c, fills c (g pid c)) →
  heap_fills (heap w) (heap (for_each_conn body conns w)).
Proof.
  intros Hbody Hg. revert w.
  induction conns as [|[pid q] conns IH]; intros w; [apply heap_fills_refl|].
  change (for_each_conn body ((pid, q) :: conns) w)
    with (for_each_conn body conns (body pid q w)).
  eapply heap_fills_trans; [|apply IH]. rewrite Hbody. by apply heap_fills_alter.
Qed.

Lemma broadcast_heap_fills (S : Z) (M : pydict) (E : option (gset Z)) (w : world) :
  heap_fills (heap w) (heap (broadcast S M E w)).
Proof.
  unfold broadcast. destruct (active_items S w) as [|pq conns]; [apply heap_fills_refl|].
  apply (for_each_heap_fills _ (delivered (default ∅ E) M) _
           (print (LogBroadcast S (dict_get M "type") (default ∅ E)) w)).
  - intros. apply deliver_heap.
  - intros. apply fills_delivered.
Qed.

(** What one step does to the store: it fills queues, or ([connect]) adds
    an empty queue of capacity 256 under a reference that was free. *)
Lemma hub_step_heap (db : gmap Z AudioFile) (w w' : world) :
  hub_step db w w' →
  heap_fills (heap w) (heap w') ∨
  ∃ q, heap w !! q = None ∧ heap w' = <[q := mkQueue 256 []]> (heap w).
Proof.
  intros Hstep.
  destruct Hstep as [S P u n t w|S P w|q M w|S M E w|S w|S P m w|S P r w|S P r w
                    |S a title w|S a speed position w|S position w|S control w r w' Hrun].
  - right. exists (fresh (dom (heap w))). split; [|done].
    apply not_elem_of_dom, is_fresh.
  - left. apply heap_fills_refl.
  - left. unfold send_personal. rewrite put_or_log_heap.
    apply heap_fills_alter. intros. apply fills_push.
  - left. apply broadcast_heap_fills.
  - left. unfold close_session; simpl.
    apply (for_each_heap_fills end_stream (λ _, push2 (PDict session_ended_msg) PNone)).
    + apply end_stream_heap.
    + intros. apply fills_push2.
  - left. destruct (SESSION_STATE w !! S) as [s|] eqn:Hs.
    + destruct (mute_participant_known S P m w s Hs) as (w0 & -> & _ & Hheap & _).
      simpl. rewrite <- Hheap. apply broadcast_heap_fills.
    + unfold mute_participant. rewrite Hs. apply heap_fills_refl.
  - left. destruct (kick_participant_unfold S P r w) as (w1 & -> & _ & _ & Hheap & _).
    eapply heap_fills_trans; [|apply broadcast_heap_fills]. rewrite Hheap.
    destruct (channel S P w); [|apply heap_fills_refl].
    apply heap_fills_alter. intros. apply fills_push2.
  - left. unfold disconnect_participant.
    destruct (_ !! P) as [q|]; [|apply heap_fills_refl].
    rewrite put2_or_pass_heap. apply heap_fills_alter. intros. apply fills_push2.
  - left. unfold audio_select. apply (broadcast_heap_fills S _ None (set_SESSION_STATE _ w)).
  - left. unfold audio_play. destruct (SESSION_STATE w !! S); [|apply heap_fills_refl].
    apply (broadcast_heap_fills S _ None (set_SESSION_STATE _ w)).
  - left. unfold audio_pause. destruct (SESSION_STATE w !! S); [|apply heap_fills_refl].
    apply (broadcast_heap_fills S _ None (set_SESSION_STATE _ w)).
  - left. unfold control_audio_playback in Hrun.
    destruct (SESSION_STATE w !! S) as [s|]; [|done].
    destruct (is_none _); [done|].
    destruct (db_execute_raises _); [done|].
    destruct (db_audio_file db _) as [af|]; [|done].
    repeat case_decide; try done; injection Hrun as _ <-;
      apply (broadcast_heap_fills S _ None (set_SESSION_STATE _ w)).
Qed.

(** X3: no queue ever holds more than its 256 items.  In every state the
    hub reaches, each queue has capacity 256 and at most 256 pending items,
    however many messages were sent to a client that does not drain. *)
Theorem reachable_queues_bounded (db : gmap Z AudioFile) (w : world) :
  reachable db w → queues_bounded w.
Proof.
  unfold reachable. intros Hreach.
  apply (rtc_ind_r (R := hub_step db) queues_bounded empty_world); [| |exact Hreach].
  - intros q c Hq. simpl in Hq. by rewrite lookup_empty in Hq.
  - intros w1 w2 _ Hstep Hbound q c2 Hq.
    destruct (hub_step_heap db w1 w2 Hstep) as [[_ Hback]|(q0 & Hfree & Hnew)].
    + destruct (Hback q c2 Hq) as (c1 & Hq1 & _ & Hcap). by apply Hcap, (Hbound q).
    + rewrite Hnew in Hq. destruct (decide (q0 = q)) as [->|Hne].
      * rewrite lookup_insert_eq in Hq. injection Hq as <-. by split.
      * rewrite lookup_insert_ne in Hq by done. by apply (Hbound q).
Qed.

Lemma reachable_queues_bounded_witness :
  within_capacity (mkQueue 256 (replicate 256 (PDict keepalive))).
Proof.
  exact (reachable_queues_bounded ∅ backlog_world backlog_world_reachable
           0%nat _ backlog_ann_queue).
Defined.

(** X4: the hub never takes anything out of a queue.  Whatever operations
    run from a state [w] to a state [w'], every queue of [w] is still there
    in [w'], with the same capacity and with its old items, in their old
    order, in front of whatever was added. *)
Theorem queues_append_only (db : gmap Z AudioFile) (w w' : world) (q : qref) (c : Queue) :
  rtc (hub_step db) w w' → heap w !! q = Some c →
  ∃ c', heap w' !! q = Some c' ∧ grows c c'.
Proof.
  intros Hsteps. revert c. induction Hsteps as [w|w1 w2 w3 Hstep _ IH]; intros c Hq.
  - exists c. split; [done|]. by split.
  - assert (∃ c2, heap w2 !! q = Some c2 ∧ grows c c2) as (c2 & Hq2 & Hm2 & Hp2).
    { destruct (hub_step_heap db w1 w2 Hstep) as [Hfill|(q0 & Hfree & Hnew)].
      - destruct (heap_fills_lookup _ _ q c Hfill Hq) as (c2 & Hq2 & Hgrow & _).
        by exists c2.
      - exists c. split; [|by split]. rewrite Hnew.
        rewrite lookup_insert_ne; [done|]. congruence. }
    destruct (IH c2 Hq2) as (c3 & Hq3 & Hm3 & Hp3).
    exists c3. split; [done|]. split; [congruence|by etrans].
Qed.

Lemma queues_append_only_witness :
  ∃ c', heap backlog_world !! 1%nat = Some c' ∧ grows (mkQueue 256 []) c'.
Proof.
  apply (queues_append_only ∅ class_world backlog_world 1%nat).
  - unfold backlog_world. generalize 256%nat. intros k.
    induction k as [|k IH]; [apply rtc_refl|].
    simpl. eapply rtc_r; [exact IH|]. apply step_send_personal.
  - exact class_bob_queue.
Defined.

(** ** The two registries agree *)

Lemma lookup_alter_unregister (a : gmap Z (gmap Z qref)) (S P S' P' : Z) :
  alter (delete P) S a !! S' ≫= (λ m, m !! P')
  = if decide ((S', P') = (S, P)) then None else a !! S' ≫= (λ m, m !! P').
Proof.
  case_decide as Heq.
  - injection Heq as -> ->. rewrite lookup_alter_eq.
    destruct (a !! S); simpl; [|done]. apply lookup_delete_eq.
  - destruct (decide (S = S')) as [<-|Hne]; [|by rewrite lookup_alter_ne].
    rewrite lookup_alter_eq. destruct (a !! S); simpl; [|done].
    apply lookup_delete_ne. congruence.
Qed.

Lemma lookup_alter_unregister_state (f : session → session) (st : gmap Z session)
    (S P S' P' : Z) :
  (∀ s, connections (f s) = delete P (connections s)) →
  alter f S st !! S' ≫= (λ s, connections s !! P')
  = if decide ((S', P') = (S, P)) then None else st !! S' ≫= (λ s, connections s !! P').
Proof.
  intros Hf. case_decide as Heq.
  - injection Heq as -> ->. rewrite lookup_alter_eq.
    destruct (st !! S); simpl; [|done]. rewrite Hf. apply lookup_delete_eq.
  - destruct (decide (S = S')) as [<-|Hne]; [|by rewrite lookup_alter_ne].
    rewrite lookup_alter_eq. destruct (st !! S); simpl; [|done].
    rewrite Hf. apply lookup_delete_ne. congruence.
Qed.

(** Taking one participant out of both maps keeps them in agreement. *)
Lemma registries_agree_unregister (w w' : world) (S P : Z) (f : session → session) :
  active w' = alter (delete P) S (active w) →
  SESSION_STATE w' = alter f S (SESSION_STATE w) →
  (∀ s, connections (f s) = delete P (connections s)) →
  registries_agree w → registries_agree w'.
Proof.
  intros Hact Hst Hf Hagree S' P'. unfold channel, state_channel.
  rewrite Hact, Hst, lookup_alter_unregister.
  rewrite (lookup_alter_unregister_state f _ S P S' P' Hf).
  case_decide; [done|]. apply Hagree.
Qed.

(** Writing the playback or the roster of one session, with its
    connections as they were (none for a session that was not there). *)
Lemma registries_agree_rewrite (w w' : world) (S : Z) (s' : session) :
  active w' = active w →
  SESSION_STATE w' = <[S := s']> (SESSION_STATE w) →
  connections s' = default ∅ (connections <$> SESSION_STATE w !! S) →
  registries_agree w → registries_agree w'.
Proof.
  intros Hact Hst Hconn Hagree S' P'. specialize (Hagree S' P').
  unfold channel, state_channel in *. rewrite Hact, Hst.
  destruct (decide (S = S')) as [<-|Hne].
  - rewrite lookup_insert_eq; simpl. rewrite Hconn, Hagree.
    destruct (SESSION_STATE w !! S); simpl; [done|]. by rewrite lookup_empty.
  - by rewrite lookup_insert_ne.
Qed.

Lemma registries_agree_same (w w' : world) :
  registry w' = registry w → registries_agree w → registries_agree w'.
Proof.
  unfold registry. intros [= Hact Hst] Hagree S P.
  unfold channel, state_channel. rewrite Hact, Hst. apply Hagree.
Qed.

(** Closes the side conditions of [registries_agree_rewrite] for an
    operation that rewrites one session and then broadcasts. *)
Ltac rewrite_then_broadcast w :=
  eapply (registries_agree_rewrite w);
  [rewrite broadcast_active; reflexivity
  |rewrite broadcast_SESSION_STATE; simpl; reflexivity
  |simpl; try done
  |done].

Lemma hub_step_registries_agree (db : gmap Z AudioFile) (w w' : world) :
  hub_step db w w' → registries_agree w → registries_agree w'.
Proof.
  intros Hstep Hagree.
  destruct Hstep as [S P u n t w|S P w|q M w|S M E w|S w|S P m w|S P r w|S P r w
                    |S a title w|S a speed position w|S position w|S control w r w' Hrun].
  - intros S' P'. rewrite connect_channel, connect_state_channel.
    case_decide; [done|]. apply Hagree.
  - by eapply (registries_agree_unregister w _ S P
                 (λ s, mkSession (delete P (connections s)) (participants s) (playback s))).
  - eapply registries_agree_same; [|done]. apply put_or_log_registry.
  - eapply registries_agree_same; [|done]. apply broadcast_registry.
  - intros S' P'. unfold channel, state_channel, close_session; simpl.
    pose proof (for_each_registry end_stream end_stream_registry
                  (active_items S w) w) as Hreg.
    unfold registry in Hreg. injection Hreg as -> ->.
    destruct (decide (S = S')) as [<-|Hne].
    + by rewrite !lookup_delete_eq.
    + rewrite !lookup_delete_ne by done. apply Hagree.
  - destruct (SESSION_STATE w !! S) as [s|] eqn:Hs.
    + destruct (mute_participant_known S P m w s Hs) as (w0 & -> & Hact & _ & _ & Hst).
      eapply (registries_agree_rewrite w); [| | |done]; simpl.
      * by rewrite broadcast_active.
      * by rewrite broadcast_SESSION_STATE.
      * by rewrite Hs.
    + unfold mute_participant. by rewrite Hs.
  - destruct (kick_participant_unfold S P r w) as (w1 & -> & Hact & Hst & _).
    eapply (registries_agree_unregister w _ S P
              (λ s, mkSession (delete P (connections s)) (delete P (participants s))
                              (playback s))); [| |done|done].
    + by rewrite broadcast_active.
    + by rewrite broadcast_SESSION_STATE.
  - unfold disconnect_participant.
    eapply (registries_agree_unregister w _ S P
              (λ s, mkSession (delete P (connections s)) (participants s) (playback s)));
      [| |done|done].
    + destruct (_ !! P) as [q|]; [|done].
      pose proof (put2_or_pass_registry q (PDict (disconnected_msg r)) PNone
        (set_SESSION_STATE
           (alter (λ s, mkSession (delete P (connections s)) (participants s)
                                  (playback s)) S)
           (set_active (alter (delete P) S) w))) as Hreg.
      unfold registry in Hreg. by injection Hreg as -> _.
    + destruct (_ !! P) as [q|]; [|done].
      pose proof (put2_or_pass_registry q (PDict (disconnected_msg r)) PNone
        (set_SESSION_STATE
           (alter (λ s, mkSession (delete P (connections s)) (participants s)
                                  (playback s)) S)
           (set_active (alter (delete P) S) w))) as Hreg.
      unfold registry in Hreg. by injection Hreg as _ ->.
  - unfold audio_select. rewrite_then_broadcast w.
    by destruct (SESSION_STATE w !! S).
  - unfold audio_play. destruct (SESSION_STATE w !! S) as [s|] eqn:Hs; [|done].
    rewrite_then_broadcast w. by rewrite Hs.
  - unfold audio_pause. destruct (SESSION_STATE w !! S) as [s|] eqn:Hs; [|done].
    rewrite_then_broadcast w. by rewrite Hs.
  - unfold control_audio_playback in Hrun.
    destruct (SESSION_STATE w !! S) as [s|] eqn:Hs; [|done].
    destruct (is_none _); [done|].
    destruct (db_execute_raises _); [done|].
    destruct (db_audio_file db _) as [af|]; [|done].
    repeat case_decide; try done; injection Hrun as _ <-;
      rewrite_then_broadcast w; by rewrite Hs.
Qed.

(** X2: in every state the hub reaches, [self.active] and the
    ["connections"] of [SESSION_STATE] register the same queue for every
    participant of every session, or none in both. *)
Theorem reachable_registries_agree (db : gmap Z AudioFile) (w : world) :
  reachable db w → registries_agree w.
Proof.
  unfold reachable. intros Hreach.
  apply (rtc_ind_r (R := hub_step db) registries_agree empty_world); [| |exact Hreach].
  - intros S P. unfold channel, state_channel. simpl. by rewrite !lookup_empty.
  - intros w1 w2 _ Hstep Hagree. by eapply hub_step_registries_agree.
Qed.

Lemma reachable_registries_agree_witness :
  channel 1 11 backlog_world = state_channel 1 11 backlog_world.
Proof.
  exact (reachable_registries_agree ∅ backlog_world backlog_world_reachable 1 11).
Defined.

(** ** disconnect_participant *)

Lemma disconnect_participant_unfold (S P : Z) (reason : option string) (w : world) :
  registry (disconnect_participant S P reason w) = registry (disconnect S P w) ∧
  heap (disconnect_participant S P reason w)
  = match channel S P w with
    | Some q => alter (push2 (PDict (disconnected_msg reason)) PNone) q (heap w)
    | None => heap w
    end ∧
  stdout (disconnect_participant S P reason w) = stdout w.
Proof.
  unfold disconnect_participant. rewrite channel_default.
  destruct (channel S P w) as [q|]; [|done].
  rewrite put2_or_pass_registry, put2_or_pass_heap, put2_or_pass_stdout. done.
Qed.

(** X5: [disconnect_participant] changes the registry exactly as
    [disconnect] does (the roster entry stays), prints nothing, hence makes
    no broadcast, and writes to the queue it took from the participant and
    to no other; that queue, when it had room for two more items, ends with
    the ["disconnected"] message and the sentinel. *)
Theorem disconnect_participant_soft (S P : Z) (reason : option string) (w : world) :
  registry (disconnect_participant S P reason w) = registry (disconnect S P w) ∧
  roster_entry S P (disconnect_participant S P reason w) = roster_entry S P w ∧
  stdout (disconnect_participant S P reason w) = stdout w ∧
  (∀ q, channel S P w ≠ Some q →
     heap (disconnect_participant S P reason w) !! q = heap w !! q) ∧
  (∀ q c, channel S P w = Some q → heap w !! q = Some c → has_room c 2 →
     heap (disconnect_participant S P reason w) !! q
     = Some (mkQueue (maxsize c)
               (items c ++ [PDict (disconnected_msg reason); PNone]))) ∧
  (∀ q c, channel S P w = Some q → heap w !! q = Some c →
     0 < maxsize c → maxsize c <= qsize c →
     heap (disconnect_participant S P reason w) !! q = Some c).
Proof.
  destruct (disconnect_participant_unfold S P reason w) as (Hreg & Hheap & Hout).
  split; [done|]. split; [|split; [done|split; [|split]]].
  - unfold registry in Hreg. injection Hreg as _ Hst.
    unfold roster_entry. rewrite Hst. simpl. rewrite lookup_alter_eq.
    by destruct (SESSION_STATE w !! S).
  - intros q Hq. rewrite Hheap. destruct (channel S P w) as [q0|]; [|done].
    rewrite lookup_alter_ne; [done|]. congruence.
  - intros q c Hch Hq Hroom. rewrite Hheap, Hch, lookup_alter_eq, Hq; simpl.
    by rewrite push2_room.
  - intros q c Hch Hq Hpos Hfull. rewrite Hheap, Hch, lookup_alter_eq, Hq; simpl.
    by rewrite push2_full.
Qed.

Lemma disconnect_participant_soft_witness :
  pending 0%nat (disconnect_participant 1 10 None class_world)
  = Some [PDict (disconnected_msg None); PNone] ∧
  pending 1%nat (disconnect_participant 1 10 None class_world) = Some [].
Proof.
  destruct (disconnect_participant_soft 1 10 None class_world)
    as (_ & _ & _ & Hothers & Hroom & _).
  split; unfold pending.
  - rewrite (Hroom 0%nat _ class_ann_channel class_ann_queue empty_queue_room).
    reflexivity.
  - rewrite Hothers, class_bob_queue; [reflexivity|].
    rewrite class_ann_channel. discriminate.
Defined.

(** ** close_session *)

Lemma close_session_registry (S : Z) (w : world) :
  active (close_session S w) = delete S (active w) ∧
  SESSION_STATE (close_session S w) = delete S (SESSION_STATE w).
Proof.
  unfold close_session; simpl.
  pose proof (for_each_registry end_stream end_stream_registry
                (active_items S w) w) as Hreg.
  unfold registry in Hreg. by injection Hreg as -> ->.
Qed.

(** X6: [close_session(S)] leaves every other session as it was (its
    registrations, roster and playback), writes to no queue that is not
    registered for [S], and changes no queue at all when [S] has no
    registered channel.  Closing a session a second time changes nothing. *)
Theorem close_session_frame (S : Z) (w : world) :
  (∀ S', S' ≠ S →
     active (close_session S w) !! S' = active w !! S' ∧
     SESSION_STATE (close_session S w) !! S' = SESSION_STATE w !! S') ∧
  (∀ q, (∀ pid, channel S pid w ≠ Some q) →
     heap (close_session S w) !! q = heap w !! q) ∧
  (active w !! S = None → heap (close_session S w) = heap w) ∧
  hub_state (close_session S (close_session S w)) = hub_state (close_session S w).
Proof.
  destruct (close_session_registry S w) as [Hact Hst].
  assert (∀ w0, active w0 !! S = None → heap (close_session S w0) = heap w0) as Hnone.
  { intros w0 Hw0. unfold close_session, active_items; simpl. rewrite Hw0; simpl.
    by rewrite map_to_list_empty. }
  split; [|split; [|split]].
  - intros S' Hne. rewrite Hact, Hst. by rewrite !lookup_delete_ne.
  - intros q Hq. by apply close_session_heap_other.
  - apply Hnone.
  - destruct (close_session_registry S (close_session S w)) as [Hact2 Hst2].
    unfold hub_state. rewrite Hact2, Hst2, Hnone.
    + rewrite Hact, Hst. by rewrite !delete_delete_eq.
    + rewrite Hact. apply lookup_delete_eq.
Qed.

Lemma close_session_frame_witness :
  SESSION_STATE (close_session 2 class_world) !! 1 = SESSION_STATE class_world !! 1 ∧
  heap (close_session 2 class_world) = heap class_world.
Proof.
  destruct (close_session_frame 2 class_world) as (Hothers & _ & Hnone & _).
  split.
  - by destruct (Hothers 1) as [_ ->].
  - apply Hnone. vm_compute. reflexivity.
Defined.

(** ** Joining again after the roster entry is gone *)

(** X7: a [connect] after [close_session] starts from nothing: the entry of
    the participant has [is_muted] and [raised_hand] [False] whatever they
    were before the session was closed, and the playback of the session is
    the default one. *)
Theorem connect_after_close_session (S P u : Z) (n : string) (t : bool) (w : world) :
  roster_entry S P (connect S P u n t (close_session S w)).2
  = Some {[ "user_id" := PInt u; "name" := PStr n; "is_muted" := PBool false;
            "raised_hand" := PBool false; "is_teacher" := PBool t ]} ∧
  session_playback S (connect S P u n t (close_session S w)).2 = Some default_playback ∧
  (∀ P', P' ≠ P → roster_entry S P' (connect S P u n t (close_session S w)).2 = None).
Proof.
  destruct (close_session_registry S w) as [_ Hst].
  assert (SESSION_STATE (close_session S w) !! S = None) as Hgone
    by (rewrite Hst; apply lookup_delete_eq).
  split; [|split].
  - unfold roster_entry. simpl. rewrite lookup_insert_eq; simpl.
    rewrite lookup_insert_eq. unfold close_session in Hgone; simpl in Hgone.
    by rewrite Hgone.
  - unfold session_playback. simpl. rewrite lookup_insert_eq; simpl.
    unfold close_session in Hgone; simpl in Hgone. by rewrite Hgone.
  - intros P' Hne. unfold roster_entry. simpl. rewrite lookup_insert_eq; simpl.
    rewrite lookup_insert_ne by done.
    unfold close_session in Hgone; simpl in Hgone. by rewrite Hgone.
Qed.

(** X8: a [connect] after [kick_participant] does not bring the flags back:
    the new entry has [is_muted] and [raised_hand] [False] whatever they were
    when the participant was kicked. *)
Theorem connect_after_kick (S P u : Z) (n : string) (t : bool)
    (reason : option string) (w : world) :
  roster_entry S P (connect S P u n t (kick_participant S P reason w)).2
  = Some {[ "user_id" := PInt u; "name" := PStr n; "is_muted" := PBool false;
            "raised_hand" := PBool false; "is_teacher" := PBool t ]}.
Proof.
  pose proof (kick_participant_roster S P reason w) as Hgone.
  unfold roster_entry in *. simpl. rewrite lookup_insert_eq; simpl.
  rewrite lookup_insert_eq.
  destruct (SESSION_STATE (kick_participant S P reason w) !! S) as [s|];
    simpl in *; [by rewrite Hgone|done].
Qed.

Lemma connect_after_close_session_witness :
  roster_flag 1 10 "is_muted"
    (connect 1 10 100 "Ann" false
       (close_session 1 (mute_participant 1 10 true class_world))).2
  = PBool false.
Proof.
  destruct (connect_after_close_session 1 10 100 "Ann" false
              (mute_participant 1 10 true class_world)) as (Hentry & _ & _).
  unfold roster_flag. rewrite Hentry. reflexivity.
Defined.

(** ** Delivery to the channels with room *)

Lemma broadcast_heap_room (S : Z) (M : pydict) (E : option (gset Z)) (w : world)
    (pid : Z) (q : qref) (c : Queue) :
  hub_wf w → channel S pid w = Some q → pid ∉ default ∅ E →
  heap w !! q = Some c → has_room c 1 →
  heap (broadcast S M E w) !! q = Some (mkQueue (maxsize c) (items c ++ [PDict M])).
Proof.
  intros Hwf Hch Hex Hq Hroom.
  rewrite (broadcast_heap_target S M E w pid q Hwf Hch), Hq; simpl.
  unfold delivered. rewrite decide_False by done. by rewrite push_room.
Qed.

Lemma broadcast_channel (S : Z) (M : pydict) (E : option (gset Z)) (w : world)
    (S' P' : Z) :
  channel S' P' (broadcast S M E w) = channel S' P' w.
Proof. unfold channel. by rewrite broadcast_active. Qed.

Lemma hub_wf_broadcast (S : Z) (M : pydict) (E : option (gset Z)) (w : world) :
  hub_wf w → hub_wf (broadcast S M E w).
Proof. apply hub_wf_frame; [apply broadcast_active|apply broadcast_dom]. Qed.

(** X17: two broadcasts to a session reach a channel in the order of the
    calls.  In a state whose registered queues are distinct objects, a
    registered participant excluded from neither call, whose queue has
    room for two more items, finds the first message and then the second
    behind what was pending. *)
Theorem broadcasts_arrive_in_order (S : Z) (M1 M2 : pydict) (E1 E2 : option (gset Z))
    (w : world) (pid : Z) (q : qref) (c : Queue) :
  hub_wf w → channel S pid w = Some q → heap w !! q = Some c →
  pid ∉ default ∅ E1 → pid ∉ default ∅ E2 → has_room c 2 →
  heap (broadcast S M2 E2 (broadcast S M1 E1 w)) !! q
  = Some (mkQueue (maxsize c) (items c ++ [PDict M1; PDict M2])).
Proof.
  intros Hwf Hch Hq Hex1 Hex2 Hroom.
  assert (has_room c 1) as Hroom1 by (unfold has_room in *; lia).
  pose proof (broadcast_heap_room S M1 E1 w pid q c Hwf Hch Hex1 Hq Hroom1) as Hq1.
  erewrite (broadcast_heap_room S M2 E2 _ pid q); [|by apply hub_wf_broadcast| |done|exact Hq1|].
  - simpl. by rewrite <- app_assoc.
  - by rewrite broadcast_channel.
  - unfold has_room, qsize in *; simpl. rewrite length_app; simpl. lia.
Qed.

Lemma broadcasts_arrive_in_order_witness :
  pending 1%nat (broadcast 1 keepalive None (broadcast 1 chat_msg None class_world))
  = Some [PDict chat_msg; PDict keepalive].
Proof.
  unfold pending.
  rewrite (broadcasts_arrive_in_order 1 chat_msg keepalive None None class_world
             11 1%nat (mkQueue 256 []) class_world_wf class_bob_channel class_bob_queue
             (not_elem_of_empty _) (not_elem_of_empty _) empty_queue_room).
  reflexivity.
Defined.

(** ** mute_participant *)

(** X9: in a session that [SESSION_STATE] knows, [mute_participant] writes
    the key [is_muted] of the participant's entry and keeps every other key
    of it; the other entries, the connections, the playback, the other
    sessions and [self.active] are as before.  It makes one broadcast, of
    type ["participant_muted"], which, in a state whose registered queues
    are distinct objects, every registered channel with room receives once,
    the muted participant's own channel included.  In a session that
    [SESSION_STATE] does not know it returns without doing anything. *)
Theorem mute_participant_sets_flag (S P : Z) (m : bool) (w : world) :
  (SESSION_STATE w !! S = None → mute_participant S P m w = w) ∧
  (∀ s, SESSION_STATE w !! S = Some s →
     roster_entry S P (mute_participant S P m w)
     = Some (<["is_muted" := PBool m]> (default ∅ (participants s !! P))) ∧
     (∀ P', P' ≠ P →
        roster_entry S P' (mute_participant S P m w) = roster_entry S P' w) ∧
     (∀ P', state_channel S P' (mute_participant S P m w) = state_channel S P' w) ∧
     session_playback S (mute_participant S P m w) = session_playback S w ∧
     (∀ S', S' ≠ S →
        SESSION_STATE (mute_participant S P m w) !! S' = SESSION_STATE w !! S') ∧
     active (mute_participant S P m w) = active w ∧
     broadcast_types (stdout (mute_participant S P m w))
     = broadcast_types (stdout w) ++ [PStr "participant_muted"] ∧
     (hub_wf w → ∀ pid q c,
        channel S pid w = Some q → heap w !! q = Some c → has_room c 1 →
        heap (mute_participant S P m w) !! q
        = Some (mkQueue (maxsize c) (items c ++ [PDict (participant_muted_msg P m)])))).
Proof.
  split.
  - intros Hs. unfold mute_participant. by rewrite Hs.
  - intros s Hs.
    destruct (mute_participant_known S P m w s Hs) as (w0 & -> & Hact & Hheap & Hout & Hst).
    split; [|split; [|split; [|split; [|split; [|split; [|split]]]]]].
    + unfold roster_entry; simpl.
      rewrite broadcast_SESSION_STATE, Hst, lookup_insert_eq; simpl.
      apply lookup_insert_eq.
    + intros P' Hne. unfold roster_entry; simpl.
      rewrite broadcast_SESSION_STATE, Hst, lookup_insert_eq, Hs; simpl.
      by rewrite lookup_insert_ne.
    + intros P'. unfold state_channel; simpl.
      by rewrite broadcast_SESSION_STATE, Hst, lookup_insert_eq, Hs.
    + unfold session_playback; simpl.
      by rewrite broadcast_SESSION_STATE, Hst, lookup_insert_eq, Hs.
    + intros S' Hne. simpl. rewrite broadcast_SESSION_STATE, Hst.
      by rewrite lookup_insert_ne.
    + simpl. by rewrite broadcast_active.
    + simpl. rewrite broadcast_types_app, broadcast_broadcast_types, Hout; simpl.
      by rewrite app_nil_r.
    + intros Hwf pid q c Hch Hq Hroom. simpl.
      apply (broadcast_heap_room S _ None w0 pid q c).
      * by apply (hub_wf_frame w); [|rewrite Hheap|].
      * unfold channel. by rewrite Hact.
      * apply not_elem_of_empty.
      * by rewrite Hheap.
      * done.
Qed.

Lemma mute_participant_sets_flag_witness :
  mute_participant 7 10 true class_world = class_world ∧
  pending 0%nat (mute_participant 1 10 true class_world)
  = Some [PDict (participant_muted_msg 10 true)].
Proof.
  destruct (mute_participant_sets_flag 7 10 true class_world) as [Hnoop _].
  destruct (mute_participant_sets_flag 1 10 true class_world) as [_ Hknown].
  split.
  - apply Hnoop. vm_compute. reflexivity.
  - destruct (SESSION_STATE class_world !! 1) as [s|] eqn:Hs.
    + destruct (Hknown s eq_refl) as (_ & _ & _ & _ & _ & _ & _ & Hsend).
      unfold pending.
      rewrite (Hsend class_world_wf 10 0%nat _ class_ann_channel class_ann_queue);
        [reflexivity|]. right. vm_compute. discriminate.
    + vm_compute in Hs. discriminate Hs.
Defined.

(** X10: of two [mute_participant] calls for the same participant the last
    one decides: the registry after both is the registry after the second
    alone. *)
Theorem mute_participant_last_wins (S P : Z) (m1 m2 : bool) (w : world) :
  registry (mute_participant S P m2 (mute_participant S P m1 w))
  = registry (mute_participant S P m2 w).
Proof.
  destruct (SESSION_STATE w !! S) as [s|] eqn:Hs.
  - destruct (mute_participant_known S P m1 w s Hs) as (w1 & Hw1 & Hact1 & _ & _ & Hst1).
    assert (SESSION_STATE (mute_participant S P m1 w) !! S
            = Some (mkSession (connections s)
                      (<[P := <["is_muted" := PBool m1]> (default ∅ (participants s !! P))]>
                         (participants s))
                      (playback s))) as Hs1.
    { rewrite Hw1. simpl. by rewrite broadcast_SESSION_STATE, Hst1, lookup_insert_eq. }
    destruct (mute_participant_known S P m2 _ _ Hs1) as (w2 & -> & Hact2 & _ & _ & Hst2).
    destruct (mute_participant_known S P m2 w s Hs) as (w3 & -> & Hact3 & _ & _ & Hst3).
    unfold registry; simpl.
    rewrite !broadcast_active, !broadcast_SESSION_STATE, Hact2, Hst2, Hact3, Hst3.
    rewrite Hw1; simpl. rewrite broadcast_active, broadcast_SESSION_STATE, Hact1, Hst1.
    rewrite insert_insert_eq. simpl. rewrite lookup_insert_eq; simpl.
    by rewrite !insert_insert_eq.
  - unfold mute_participant. by rewrite !Hs.
Qed.

(** ** kick_participant and the others *)

(** X16: [kick_participant(S, P)] touches nobody else: the roster entries
    and registrations of the other participants, the playback of the
    session and the other sessions are as before.  It always makes one
    broadcast, of type ["participant_kicked"], whether or not [P] was
    known; in a state whose registered queues are distinct objects every
    other registered channel with room receives it once. *)
Theorem kick_participant_notifies_others (S P : Z) (reason : option string) (w : world) :
  (∀ P', P' ≠ P →
     roster_entry S P' (kick_participant S P reason w) = roster_entry S P' w ∧
     channel S P' (kick_participant S P reason w) = channel S P' w) ∧
  session_playback S (kick_participant S P reason w) = session_playback S w ∧
  (∀ S', S' ≠ S →
     active (kick_participant S P reason w) !! S' = active w !! S' ∧
     SESSION_STATE (kick_participant S P reason w) !! S' = SESSION_STATE w !! S') ∧
  broadcast_types (stdout (kick_participant S P reason w))
  = broadcast_types (stdout w) ++ [PStr "participant_kicked"] ∧
  (hub_wf w → ∀ pid q c,
     pid ≠ P → channel S pid w = Some q → heap w !! q = Some c → has_room c 1 →
     heap (kick_participant S P reason w) !! q
     = Some (mkQueue (maxsize c) (items c ++ [PDict (participant_kicked_msg P)]))).
Proof.
  pose proof (kick_participant_channel S P) as Hchan.
  destruct (kick_participant_unfold S P reason w) as (w1 & Hk & Hact & Hst & Hheap & Hout).
  split; [|split; [|split; [|split]]].
  - intros P' Hne. split.
    + rewrite Hk. unfold roster_entry.
      rewrite broadcast_SESSION_STATE, Hst, lookup_alter_eq.
      destruct (SESSION_STATE w !! S); simpl; [|done]. by apply lookup_delete_ne.
    + rewrite Hchan. by rewrite decide_False.
  - rewrite Hk. unfold session_playback.
    rewrite broadcast_SESSION_STATE, Hst, lookup_alter_eq.
    by destruct (SESSION_STATE w !! S).
  - intros S' Hne. rewrite Hk, broadcast_active, broadcast_SESSION_STATE, Hact, Hst.
    by rewrite !lookup_alter_ne.
  - rewrite Hk, broadcast_broadcast_types, Hout. done.
  - intros Hwf pid q c Hne Hch Hq Hroom. rewrite Hk.
    assert (channel S pid w1 = Some q) as Hch1.
    { unfold channel in *. rewrite Hact, lookup_alter_eq.
      destruct (active w !! S); simpl in *; [|done]. by rewrite lookup_delete_ne. }
    assert (heap w1 !! q = Some c) as Hq1.
    { rewrite Hheap. destruct (channel S P w) as [q0|] eqn:Hq0; [|done].
      rewrite lookup_alter_ne; [done|]. intros ->.
      unfold channel in *. destruct (active w !! S) as [m|] eqn:Hm; simpl in *; [|done].
      by apply Hne, (hub_wf_lookup w S m Hwf Hm pid P q). }
    apply (broadcast_heap_room S _ None w1 pid q c); [|done|apply not_elem_of_empty|done|done].
    apply (hub_wf_shrink w); [| |done].
    + intros S' m'. rewrite Hact. apply alter_delete_shrink.
    + rewrite Hheap. destruct (channel S P w); [|done]. apply leibniz_equiv, dom_alter.
Qed.

Lemma kick_participant_notifies_others_witness :
  pending 1%nat (kick_participant 1 10 None class_world)
  = Some [PDict (participant_kicked_msg 10)].
Proof.
  destruct (kick_participant_notifies_others 1 10 None class_world)
    as (_ & _ & _ & _ & Hsend).
  unfold pending.
  rewrite (Hsend class_world_wf 11 1%nat _ ltac:(discriminate)
             class_bob_channel class_bob_queue); [reflexivity|].
  right. vm_compute. discriminate.
Defined.

(** ** Playback operations *)

(** Rewriting the playback of a session (one that is known, or one that
    [audio_select] is about to create) and broadcasting the change. *)
Lemma playback_rewrite_transition (S : Z) (s : session) (f : pydict → pydict)
    (M : pydict) (w : world) :
  connections s = default ∅ (connections <$> SESSION_STATE w !! S) →
  participants s = default ∅ (participants <$> SESSION_STATE w !! S) →
  playback_transition S (f (playback s)) M w
    (broadcast S M None (set_SESSION_STATE <[S := set_playback f s]> w)).
Proof.
  intros Hconn Hpart. unfold playback_transition.
  split; [|split; [|split; [|split; [|split; [|split]]]]].
  - unfold session_playback. rewrite broadcast_SESSION_STATE. simpl.
    by rewrite lookup_insert_eq.
  - intros P. unfold roster_entry. rewrite broadcast_SESSION_STATE. simpl.
    rewrite lookup_insert_eq; simpl. rewrite Hpart.
    destruct (SESSION_STATE w !! S); simpl; [done|]. apply lookup_empty.
  - intros P. unfold state_channel. rewrite broadcast_SESSION_STATE. simpl.
    rewrite lookup_insert_eq; simpl. rewrite Hconn.
    destruct (SESSION_STATE w !! S); simpl; [done|]. apply lookup_empty.
  - intros S' Hne. rewrite broadcast_SESSION_STATE. simpl. by rewrite lookup_insert_ne.
  - by rewrite broadcast_active.
  - by rewrite broadcast_broadcast_types.
  - intros Hwf pid q c Hch Hq Hroom.
    by apply (broadcast_heap_room S M None _ pid q c);
      [apply (hub_wf_frame w)| |apply not_elem_of_empty| |].
Qed.

(** A key that a dictionary literal does not list. *)
Ltac not_a_key :=
  rewrite ?lookup_insert_ne by done; by rewrite lookup_singleton_ne.

Lemma lookup_dict_update_other (u d : pydict) (k : string) :
  u !! k = None → dict_update u d !! k = d !! k.
Proof. intros Hk. unfold dict_update. by rewrite lookup_union_r. Qed.

(** X11: [audio_select] makes the session known if it was not, stores the
    audio id and the title, sets the status to ["stopped"] and the position
    to 0.0, and keeps every other key of the playback as it was: a new
    session has no [speed], an old one keeps its [speed] and [duration].
    Rosters, connections, other sessions and [self.active] are as before,
    and the one broadcast is of type ["audio_selected"]. *)
Theorem audio_select_transition (S a : Z) (title : option string) (w : world) :
  playback_transition S
    (dict_update {[ "audio_id" := PInt a; "title" := opt_str title;
                    "status" := PStr "stopped"; "position" := PFloat 0.0%float ]}
       (default ∅ (session_playback S w)))
    {[ "type" := PStr "audio_selected"; "audio_id" := PInt a; "title" := opt_str title ]}
    w (audio_select S a title w) ∧
  (∀ pb', session_playback S (audio_select S a title w) = Some pb' →
     dict_get pb' "audio_id" = PInt a ∧ dict_get pb' "title" = opt_str title ∧
     dict_get pb' "status" = PStr "stopped" ∧
     dict_get pb' "position" = PFloat 0.0%float ∧
     ∀ k, k ≠ "audio_id" → k ≠ "title" → k ≠ "status" → k ≠ "position" →
          pb' !! k = default ∅ (session_playback S w) !! k).
Proof.
  assert (playback_transition S
    (dict_update {[ "audio_id" := PInt a; "title" := opt_str title;
                    "status" := PStr "stopped"; "position" := PFloat 0.0%float ]}
       (default ∅ (session_playback S w)))
    {[ "type" := PStr "audio_selected"; "audio_id" := PInt a; "title" := opt_str title ]}
    w (audio_select S a title w)) as Htrans.
  { unfold audio_select.
    replace (default ∅ (session_playback S w))
      with (playback (default (mkSession ∅ ∅ ∅) (SESSION_STATE w !! S)))
      by (unfold session_playback; by destruct (SESSION_STATE w !! S)).
    apply (playback_rewrite_transition S (default (mkSession ∅ ∅ ∅) (SESSION_STATE w !! S)));
      by destruct (SESSION_STATE w !! S). }
  split; [exact Htrans|].
  intros pb' Hpb'. destruct Htrans as [Hpb _]. rewrite Hpb in Hpb'. injection Hpb' as <-.
  split; [|split; [|split; [|split]]];
    try (erewrite dict_get_update_l; [|reflexivity]; reflexivity).
  intros k H1 H2 H3 H4. apply lookup_dict_update_other. not_a_key.
Qed.

Lemma audio_select_transition_witness :
  (session_playback 9 (audio_select 9 7 (Some "T") class_world) ≫= λ pb, pb !! "speed")
  = None ∧
  (session_playback 1 (audio_select 1 7 (Some "T") class_world) ≫= λ pb, pb !! "speed")
  = Some (PFloat 1.0%float).
Proof.
  destruct (audio_select_transition 9 7 (Some "T") class_world) as [[Hpb9 _] Hkeys9].
  destruct (audio_select_transition 1 7 (Some "T") class_world) as [[Hpb1 _] Hkeys1].
  split.
  - rewrite Hpb9; simpl. destruct (Hkeys9 _ Hpb9) as (_ & _ & _ & _ & Hk).
    rewrite Hk by discriminate. vm_compute. reflexivity.
  - rewrite Hpb1; simpl. destruct (Hkeys1 _ Hpb1) as (_ & _ & _ & _ & Hk).
    rewrite Hk by discriminate. vm_compute. reflexivity.
Defined.

(** X12: [audio_play] in a session that [SESSION_STATE] does not know
    returns without doing anything (nothing is stored, printed or
    broadcast).  In a known session it stores status ["playing"], the audio
    id, the speed and the position, keeps the other keys (the title), and
    broadcasts ["audio_play"]; rosters, connections and other sessions are
    as before. *)
Theorem audio_play_transition (S a : Z) (speed position : float) (w : world) :
  (SESSION_STATE w !! S = None → audio_play S a speed position w = w) ∧
  (∀ s, SESSION_STATE w !! S = Some s →
     playback_transition S
       (dict_update {[ "status" := PStr "playing"; "audio_id" := PInt a;
                       "speed" := PFloat speed; "position" := PFloat position ]}
          (playback s))
       {[ "type" := PStr "audio_play"; "audio_id" := PInt a;
          "speed" := PFloat speed; "position" := PFloat position ]}
       w (audio_play S a speed position w) ∧
     ∀ k, k ≠ "status" → k ≠ "audio_id" → k ≠ "speed" → k ≠ "position" →
       (session_playback S (audio_play S a speed position w) ≫= λ pb, pb !! k)
       = playback s !! k).
Proof.
  split.
  - intros Hs. unfold audio_play. by rewrite Hs.
  - intros s Hs.
    assert (playback_transition S
       (dict_update {[ "status" := PStr "playing"; "audio_id" := PInt a;
                       "speed" := PFloat speed; "position" := PFloat position ]}
          (playback s))
       {[ "type" := PStr "audio_play"; "audio_id" := PInt a;
          "speed" := PFloat speed; "position" := PFloat position ]}
       w (audio_play S a speed position w)) as Htrans.
    { unfold audio_play. rewrite Hs.
      apply (playback_rewrite_transition S s); by rewrite Hs. }
    split; [exact Htrans|]. intros k H1 H2 H3 H4.
    destruct Htrans as [-> _]. simpl. apply lookup_dict_update_other. not_a_key.
Qed.

(** X13: [audio_pause] in a session that [SESSION_STATE] does not know
    returns without doing anything.  In a known session it stores status
    ["paused"] and the position and keeps every other key, the audio id
    included, whether or not one is set; it broadcasts ["audio_pause"]. *)
Theorem audio_pause_transition (S : Z) (position : float) (w : world) :
  (SESSION_STATE w !! S = None → audio_pause S position w = w) ∧
  (∀ s, SESSION_STATE w !! S = Some s →
     playback_transition S
       (<["position" := PFloat position]> (<["status" := PStr "paused"]> (playback s)))
       {[ "type" := PStr "audio_pause"; "position" := PFloat position ]}
       w (audio_pause S position w) ∧
     ∀ k, k ≠ "status" → k ≠ "position" →
       (session_playback S (audio_pause S position w) ≫= λ pb, pb !! k)
       = playback s !! k).
Proof.
  split.
  - intros Hs. unfold audio_pause. by rewrite Hs.
  - intros s Hs.
    assert (playback_transition S
       (<["position" := PFloat position]> (<["status" := PStr "paused"]> (playback s)))
       {[ "type" := PStr "audio_pause"; "position" := PFloat position ]}
       w (audio_pause S position w)) as Htrans.
    { unfold audio_pause. rewrite Hs.
      apply (playback_rewrite_transition S s
               (λ pb, <["position" := PFloat position]> (<["status" := PStr "paused"]> pb)));
        by rewrite Hs. }
    split; [exact Htrans|]. intros k H1 H2.
    destruct Htrans as [-> _]. simpl. by rewrite !lookup_insert_ne.
Qed.

Example select_world_known :
  is_Some (SESSION_STATE (audio_select 1 7 (Some "T") class_world) !! 1).
Proof. vm_compute. by eexists. Qed.

Lemma audio_play_transition_witness :
  audio_play 9 7 1.0%float 3.0%float class_world = class_world ∧
  (session_playback 1
     (audio_play 1 7 1.0%float 3.0%float (audio_select 1 7 (Some "T") class_world))
   ≫= λ pb, pb !! "title") = Some (PStr "T").
Proof.
  destruct (audio_play_transition 9 7 1.0%float 3.0%float class_world) as [Hnoop _].
  destruct (audio_play_transition 1 7 1.0%float 3.0%float
              (audio_select 1 7 (Some "T") class_world)) as [_ Hknown].
  split.
  - apply Hnoop. vm_compute. reflexivity.
  - destruct select_world_known as [s Hs].
    destruct (Hknown s Hs) as [_ Hkeys]. rewrite Hkeys by discriminate.
    destruct (audio_select_session 1 7 (Some "T") class_world) as (s' & Hs' & _ & _ & _ & Ht).
    rewrite Hs in Hs'. injection Hs' as <-. unfold dict_get in Ht.
    destruct (playback s !! "title") as [v|] eqn:Hv; simpl in Ht; [by subst|discriminate].
Defined.

Lemma audio_pause_transition_witness :
  audio_pause 9 4.0%float class_world = class_world ∧
  (session_playback 1 (audio_pause 1 4.0%float class_world) ≫= λ pb, pb !! "audio_id")
  = Some PNone.
Proof.
  destruct (audio_pause_transition 9 4.0%float class_world) as [Hnoop _].
  destruct (audio_pause_transition 1 4.0%float class_world) as [_ Hknown].
  split.
  - apply Hnoop. vm_compute. reflexivity.
  - assert ((SESSION_STATE class_world !! 1 ≫= λ s, playback s !! "audio_id")
            = Some PNone) as Hid by (vm_compute; reflexivity).
    destruct (SESSION_STATE class_world !! 1) as [s|]; [|discriminate Hid].
    destruct (Hknown s eq_refl) as [_ Hkeys]. by rewrite Hkeys.
Defined.

(** ** The control handler *)

(** The audio ids stored in a reachable state are [None] or [int]s. *)
Lemma audio_ids_typed_insert (w w' : world) (S : Z) (s' : session) :
  SESSION_STATE w' = <[S := s']> (SESSION_STATE w) →
  audio_id_typed (playback s') → audio_ids_typed w → audio_ids_typed w'.
Proof.
  intros Hst Hok Hall S0 s0. rewrite Hst.
  destruct (decide (S = S0)) as [<-|Hne].
  - rewrite lookup_insert_eq. by intros [= <-].
  - rewrite lookup_insert_ne by done. apply Hall.
Qed.

Lemma audio_ids_typed_alter (w w' : world) (S : Z) (f : session → session) :
  SESSION_STATE w' = alter f S (SESSION_STATE w) →
  (∀ s, playback (f s) = playback s) → audio_ids_typed w → audio_ids_typed w'.
Proof.
  intros Hst Hpb Hall S0 s0. rewrite Hst.
  destruct (decide (S = S0)) as [<-|Hne].
  - rewrite lookup_alter_eq. destruct (SESSION_STATE w !! S) as [s|] eqn:Hs; [|done].
    intros [= <-]. rewrite Hpb. by apply (Hall S).
  - rewrite lookup_alter_ne by done. apply Hall.
Qed.

Lemma audio_ids_typed_same (w w' : world) :
  SESSION_STATE w' = SESSION_STATE w → audio_ids_typed w → audio_ids_typed w'.
Proof. intros Hst Hall S s. rewrite Hst. apply Hall. Qed.

Lemma hub_step_audio_ids_typed (db : gmap Z AudioFile) (w w' : world) :
  hub_step db w w' → audio_ids_typed w → audio_ids_typed w'.
Proof.
  intros Hstep Hall.
  destruct Hstep as [S P u n t w|S P w|q M w|S M E w|S w|S P m w|S P r w|S P r w
                    |S a title w|S a speed position w|S position w|S control w r w' Hrun].
  - eapply audio_ids_typed_insert; [reflexivity| |exact Hall]. simpl.
    destruct (SESSION_STATE w !! S) as [s|] eqn:Hs; simpl.
    + by apply (Hall S).
    + by left.
  - by eapply (audio_ids_typed_alter w _ S
                 (λ s, mkSession (delete P (connections s)) (participants s) (playback s))).
  - eapply audio_ids_typed_same; [|done]. unfold send_personal.
    pose proof (put_or_log_registry q (PDict M) LogPersonalQueueFull w) as Hreg.
    unfold registry in Hreg. by injection Hreg as _ ->.
  - eapply audio_ids_typed_same; [|done]. apply broadcast_SESSION_STATE.
  - destruct (close_session_registry S w) as [_ Hst].
    intros S' s'. rewrite Hst. intros Hs'. apply lookup_delete_Some in Hs' as [_ Hs'].
    by apply (Hall S').
  - destruct (SESSION_STATE w !! S) as [s|] eqn:Hs.
    + destruct (mute_participant_known S P m w s Hs) as (w0 & -> & _ & _ & _ & Hst).
      eapply (audio_ids_typed_insert w); [| |done]; simpl.
      * by rewrite broadcast_SESSION_STATE.
      * simpl. by apply (Hall S).
    + unfold mute_participant. by rewrite Hs.
  - destruct (kick_participant_unfold S P r w) as (w1 & -> & _ & Hst & _).
    eapply (audio_ids_typed_alter w _ S
              (λ s, mkSession (delete P (connections s)) (delete P (participants s))
                              (playback s))); [|done|done].
    by rewrite broadcast_SESSION_STATE.
  - destruct (disconnect_participant_unfold S P r w) as (Hreg & _).
    unfold registry in Hreg. injection Hreg as _ Hst.
    eapply (audio_ids_typed_alter w _ S
              (λ s, mkSession (delete P (connections s)) (participants s) (playback s)));
      [exact Hst|done|done].
  - unfold audio_select.
    eapply audio_ids_typed_insert; [session_rewritten| |exact Hall].
    right. exists a. simpl. by erewrite dict_get_update_l.
  - unfold audio_play. destruct (SESSION_STATE w !! S) as [s|] eqn:Hs; [|done].
    eapply audio_ids_typed_insert; [session_rewritten| |exact Hall].
    right. exists a. simpl. by erewrite dict_get_update_l.
  - unfold audio_pause. destruct (SESSION_STATE w !! S) as [s|] eqn:Hs; [|done].
    eapply audio_ids_typed_insert; [session_rewritten| |exact Hall].
    unfold audio_id_typed. simpl. rewrite !dict_get_insert_ne by done. by apply (Hall S).
  - unfold control_audio_playback in Hrun.
    destruct (SESSION_STATE w !! S) as [s|] eqn:Hs; [|done].
    assert (audio_id_typed (playback s)) as Hs_typed by (by apply (Hall S)).
    destruct (is_none _) eqn:Hnone; [done|].
    destruct (db_execute_raises _); [done|].
    destruct (db_audio_file db _) as [af|]; [|done].
    repeat case_decide; try done; injection Hrun as _ <-;
      (eapply audio_ids_typed_insert; [session_rewritten| |exact Hall]);
      unfold audio_id_typed; simpl.
    + erewrite dict_get_update_l; [|reflexivity].
      destruct (ctl_audio_id control) as [a|]; [|done]. right. by exists a.
    + by rewrite dict_get_update_r.
    + by rewrite dict_get_update_r.
Qed.

Lemma reachable_audio_ids_typed (db : gmap Z AudioFile) (w : world) :
  reachable db w → audio_ids_typed w.
Proof.
  intros Hreach.
  apply (rtc_ind_r (R := hub_step db) audio_ids_typed empty_world); [| |exact Hreach].
  - intros S s Hs. simpl in Hs. by rewrite lookup_empty in Hs.
  - intros w1 w2 _ Hstep. by apply (hub_step_audio_ids_typed db).
Qed.

(** A row that the query finds was asked for with an id the driver binds. *)
Lemma db_audio_file_accepted (db : gmap Z AudioFile) (audio_id : pyval) (af : AudioFile) :
  db_audio_file db audio_id = Some af → db_execute_raises audio_id = false.
Proof.
  destruct audio_id as [| | a | | |]; try done. simpl.
  by destruct (INTEGER a).
Qed.

(** X14: how [control_audio_playback] ends without a result, in a session
    whose stored audio id is [None] or an [int], as it is in every state the
    hub reaches ([reachable_audio_ids_typed]).  In this order: 404
    ["Session not found"] for a session that [SESSION_STATE] does not know;
    400 ["No audio selected"] when the request names no audio and none is
    stored; the error of the driver (status 500) when the audio id is no
    [INTEGER]; 404 ["Audio file not found"] when no row has the id; 400
    ["Invalid action"] for an action other than [play], [pause] and
    [seek].  It succeeds exactly when none of these applies. *)
Theorem control_audio_playback_errors (db : gmap Z AudioFile) (S : Z)
    (control : AudioPlaybackControl) (w : world) :
  (∀ s, SESSION_STATE w !! S = Some s → audio_id_typed (playback s)) →
  match control_audio_playback db S control w with
  | inl e =>
      (SESSION_STATE w !! S = None ∧
       e = Raise (mkHTTPException 404 "Session not found")) ∨
      (∃ s, SESSION_STATE w !! S = Some s ∧
            control_audio_id control (playback s) = PNone ∧
            e = Raise (mkHTTPException 400 "No audio selected")) ∨
      (∃ s a, SESSION_STATE w !! S = Some s ∧
            control_audio_id control (playback s) = PInt a ∧
            INTEGER a = false ∧
            e = DriverError) ∨
      (∃ s a, SESSION_STATE w !! S = Some s ∧
            control_audio_id control (playback s) = PInt a ∧
            INTEGER a = true ∧ db !! a = None ∧
            e = Raise (mkHTTPException 404 "Audio file not found")) ∨
      (∃ s a af, SESSION_STATE w !! S = Some s ∧
            control_audio_id control (playback s) = PInt a ∧
            INTEGER a = true ∧ db !! a = Some af ∧
            ctl_action control ≠ "play" ∧ ctl_action control ≠ "pause" ∧
            ctl_action control ≠ "seek" ∧
            e = Raise (mkHTTPException 400 "Invalid action"))
  | inr _ =>
      ∃ s a af, SESSION_STATE w !! S = Some s ∧
            control_audio_id control (playback s) = PInt a ∧
            INTEGER a = true ∧ db !! a = Some af ∧
            (ctl_action control = "play" ∨ ctl_action control = "pause" ∨
             ctl_action control = "seek")
  end.
Proof.
  intros Hstored. unfold control_audio_playback.
  destruct (SESSION_STATE w !! S) as [s|] eqn:Hs; [|by left].
  fold (control_audio_id control (playback s)).
  assert (control_audio_id control (playback s) = PNone ∨
          ∃ a, control_audio_id control (playback s) = PInt a) as [Hid|[a Hid]].
  { unfold control_audio_id. destruct (ctl_audio_id control) as [a|]; [|by apply Hstored].
    right. by exists a. }
  { rewrite Hid; simpl. right. left. by exists s. }
  rewrite Hid; simpl.
  destruct (INTEGER a) eqn:Hfits; simpl.
  2:{ right. right. left. by exists s, a. }
  destruct (db !! a) as [af|] eqn:Hdb.
  2:{ right. right. right. left. by exists s, a. }
  repeat case_decide.
  - exists s, a, af. repeat split; auto.
  - exists s, a, af. repeat split; auto.
  - exists s, a, af. repeat split; auto.
  - right. right. right. right. by exists s, a, af.
Qed.

(** In the class, a [play] that names audio 2^63 ends in the driver. *)
Lemma control_audio_playback_errors_witness :
  control_audio_playback sample_db 1
    (mkControl (Some 9223372036854775808) 1.0%float 0.0%float "play") class_world
  = inl DriverError.
Proof.
  pose proof (control_audio_playback_errors sample_db 1
                (mkControl (Some 9223372036854775808) 1.0%float 0.0%float "play")
                class_world) as Hends.
  destruct (control_audio_playback _ _ _ _) as [e|ok].
  - destruct Hends as [[Hs _]|[(s & _ & Hid & _)|[(s & a & _ & _ & _ & ->)|
      [(s & a & _ & Hid & Hfits & _)|(s & a & af & _ & Hid & Hfits & _)]]]].
    + intros s Hs. left.
      assert ((SESSION_STATE class_world !! 1 ≫= λ s, Some (dict_get (playback s) "audio_id"))
              = Some PNone) as Hid by (vm_compute; reflexivity).
      rewrite Hs in Hid. simpl in Hid. by injection Hid.
    + vm_compute in Hs. discriminate Hs.
    + discriminate Hid.
    + reflexivity.
    + injection Hid as <-. vm_compute in Hfits. discriminate Hfits.
    + injection Hid as <-. vm_compute in Hfits. discriminate Hfits.
  - destruct Hends as (s & a & af & _ & Hid & Hfits & _).
    + intros s Hs. left.
      assert ((SESSION_STATE class_world !! 1 ≫= λ s, Some (dict_get (playback s) "audio_id"))
              = Some PNone) as Hid by (vm_compute; reflexivity).
      rewrite Hs in Hid. simpl in Hid. by injection Hid.
    + injection Hid as <-. vm_compute in Hfits. discriminate Hfits.
Defined.

(** X15: what [control_audio_playback] does when it does not raise, for the
    audio id [control_audio_id] it settled on and the file [af] found for
    it.  [play] stores the audio id, status ["playing"], speed, position and
    the title and duration of the file; [pause] stores status ["paused"] and
    the position; [seek] stores the position alone.  The broadcast and the
    response name the action of the request, except that a [seek] in a
    session that is playing is announced as [play].  The response carries
    the playback dictionary as stored; rosters, connections and other
    sessions are as before. *)
Theorem control_audio_playback_success (db : gmap Z AudioFile) (S : Z)
    (control : AudioPlaybackControl) (w : world) (s : session) (af : AudioFile) :
  SESSION_STATE w !! S = Some s →
  is_none (control_audio_id control (playback s)) = false →
  db_audio_file db (control_audio_id control (playback s)) = Some af →
  ctl_action control = "play" ∨ ctl_action control = "pause" ∨
  ctl_action control = "seek" →
  ∃ pb' action w',
    control_audio_playback db S control w
    = inr ({[ "ok" := PBool true; "action" := PStr action; "playback" := PDict pb' ]}, w') ∧
    playback_transition S pb'
      (control_msg action (control_audio_id control (playback s)) control af) w w' ∧
    (ctl_action control = "play" →
       action = "play" ∧
       pb' = dict_update
               {[ "audio_id" := control_audio_id control (playback s);
                  "status" := PStr "playing";
                  "speed" := PFloat (ctl_speed control);
                  "position" := PFloat (ctl_position control);
                  "title" := PStr (af_title af);
                  "duration" := opt_float (af_duration af) ]} (playback s)) ∧
    (ctl_action control = "pause" →
       action = "pause" ∧
       pb' = dict_update {[ "status" := PStr "paused";
                            "position" := PFloat (ctl_position control) ]} (playback s)) ∧
    (ctl_action control = "seek" →
       action = (if py_eq_str (dict_get (playback s) "status") "playing"
                 then "play" else "seek") ∧
       pb' = <["position" := PFloat (ctl_position control)]> (playback s)).
Proof.
  intros Hs Hnone Hdb Haction. unfold control_audio_playback. rewrite Hs.
  fold (control_audio_id control (playback s)).
  rewrite Hnone, (db_audio_file_accepted db _ af Hdb), Hdb.
  destruct Haction as [Hact|[Hact|Hact]]; rewrite Hact; simpl.
  - eexists _, "play", _. split; [reflexivity|]. split; [|split; [done|split; done]].
    apply (playback_rewrite_transition S s (λ _, _)); by rewrite Hs.
  - eexists _, "pause", _. split; [reflexivity|]. split; [|split; [done|split; done]].
    apply (playback_rewrite_transition S s (λ _, _)); by rewrite Hs.
  - eexists _, _, _. split; [reflexivity|]. split; [|split; [done|split; [done|]]].
    + apply (playback_rewrite_transition S s (λ _, _)); by rewrite Hs.
    + intros _. split.
      * rewrite dict_get_update_r by reflexivity. done.
      * unfold dict_update. by rewrite <- insert_union_singleton_l.
Qed.

Lemma control_audio_playback_success_witness :
  ∃ pb' w',
    control_audio_playback sample_db 1 sample_play class_world
    = inr ({[ "ok" := PBool true; "action" := PStr "play"; "playback" := PDict pb' ]}, w') ∧
    session_playback 1 w' = Some pb' ∧
    dict_get pb' "duration" = PFloat 12.5%float.
Proof.
  destruct (SESSION_STATE class_world !! 1) as [s|] eqn:Hs;
    [|vm_compute in Hs; discriminate Hs].
  assert (db_audio_file sample_db (control_audio_id sample_play (playback s))
          = Some (mkAudioFile "T" (Some 12.5%float))) as Hdb by (vm_compute; reflexivity).
  destruct (control_audio_playback_success sample_db 1 sample_play class_world s
              _ Hs eq_refl Hdb (or_introl eq_refl))
    as (pb' & action & w' & Hrun & [Hstored _] & Hplay & _).
  destruct (Hplay eq_refl) as [-> ->].
  eexists _, w'. split; [exact Hrun|]. split; [exact Hstored|].
  erewrite dict_get_update_l; [|reflexivity]. reflexivity.
Defined.

(** ** The play endpoint *)

Lemma audio_play_any_int (S a : Z) (speed position : float) (w : world) :
  audio_play_any S (PInt a) speed position w = audio_play S a speed position w.
Proof. reflexivity. Qed.

(** X18: [rest_play_audio] raises 400 when the request names no audio and
    the session has none stored (an unknown session has none), and then
    changes nothing.  When an audio id [a] is given, or omitted and stored,
    it runs the hub's [audio_play] with [a] and then logs an ["audio_play"]
    event: it answers [ok] when the database stores the row, and ends in the
    driver's error when it does not, with the hub already changed.  For a
    session that [SESSION_STATE] does not know it goes the same way, with
    the state as it was. *)
Theorem rest_play_audio_outcomes (stores : log_request → bool) (S : Z)
    (audio_id : option Z) (speed position : float) (user_id : Z) (w : world) :
  (audio_id = None →
   (∀ s, SESSION_STATE w !! S = Some s → is_none (dict_get (playback s) "audio_id") = true) →
   rest_play_audio stores S audio_id speed position user_id w
   = (inl (Raise (mkHTTPException 400 "No audio selected for this session")), w)) ∧
  (∀ a,
     audio_id = Some a ∨
     (audio_id = None ∧
      ∃ s, SESSION_STATE w !! S = Some s ∧ dict_get (playback s) "audio_id" = PInt a) →
     ∃ row,
       row = mkLogRequest S "audio_play" user_id
               {[ "audio_id" := PInt a; "position" := PFloat position;
                  "speed" := PFloat speed ]} ∧
       rest_play_audio stores S audio_id speed position user_id w
       = (if stores row then inr ({[ "ok" := PBool true ]}, row) else inl DriverError,
          audio_play S a speed position w)) ∧
  (∀ a, audio_id = Some a → SESSION_STATE w !! S = None →
     (rest_play_audio stores S audio_id speed position user_id w).2 = w).
Proof.
  split; [|split].
  - intros -> Hnone. unfold rest_play_audio.
    destruct (SESSION_STATE w !! S) as [s|]; [|done]. by rewrite (Hnone s).
  - intros a Hid. eexists. split; [reflexivity|].
    destruct Hid as [->|(-> & s & Hs & Hid)]; unfold rest_play_audio.
    + simpl. rewrite audio_play_any_int. by destruct (stores _).
    + rewrite Hs, Hid. simpl. rewrite audio_play_any_int. by destruct (stores _).
  - intros a -> Hs. unfold rest_play_audio; simpl.
    unfold audio_play_any. rewrite Hs. by destruct (stores _).
Qed.

(** In the class nothing is selected, so a [play] that names no audio is
    refused; a [play] of audio 7 in session 2^63, whose row the database
    does not store, ends in the driver's error. *)
Lemma rest_play_audio_outcomes_witness :
  rest_play_audio (λ row, INTEGER (lr_session_id row)) 1 None 1.0%float 0.0%float 100
    class_world
  = (inl (Raise (mkHTTPException 400 "No audio selected for this session")), class_world) ∧
  rest_play_audio (λ row, INTEGER (lr_session_id row)) 9223372036854775808 (Some 7)
    1.0%float 0.0%float 100 class_world
  = (inl DriverError, audio_play 9223372036854775808 7 1.0%float 0.0%float class_world).
Proof.
  destruct (rest_play_audio_outcomes (λ row, INTEGER (lr_session_id row))
              1 None 1.0%float 0.0%float 100 class_world) as (Hnone & _ & _).
  destruct (rest_play_audio_outcomes (λ row, INTEGER (lr_session_id row))
              9223372036854775808 (Some 7) 1.0%float 0.0%float 100 class_world)
    as (_ & Hplay & _).
  split.
  - apply Hnone; [reflexivity|]. intros s Hs.
    assert ((SESSION_STATE class_world !! 1 ≫= λ s, Some (dict_get (playback s) "audio_id"))
            = Some PNone) as Hid by (vm_compute; reflexivity).
    rewrite Hs in Hid. simpl in Hid. by injection Hid as ->.
  - destruct (Hplay 7 (or_introl eq_refl)) as (row & -> & Hrun). exact Hrun.
Defined.

(** ** Who can still be reached *)

Lemma reachable_wf_witness : hub_wf backlog_world.
Proof. exact (reachable_wf ∅ backlog_world backlog_world_reachable). Defined.

(** X20: a participant who was disconnected gets nothing more.  In a state
    whose registered queues are distinct objects, after [disconnect(S, P)]
    a broadcast to [S] leaves the queue that was [P]'s as it was. *)
Theorem disconnected_gets_nothing (S P : Z) (M : pydict) (E : option (gset Z))
    (w : world) (q : qref) :
  hub_wf w → channel S P w = Some q →
  heap (broadcast S M E (disconnect S P w)) !! q = heap w !! q.
Proof.
  intros Hwf Hch. rewrite broadcast_heap_other; [done|].
  intros pid. rewrite disconnect_channel. case_decide as Heq; [done|].
  intros Hpid. apply Heq. f_equal.
  unfold channel in *. destruct (active w !! S) as [m|] eqn:Hm; simpl in *; [|done].
  by apply (hub_wf_lookup w S m Hwf Hm pid P q).
Qed.

Lemma disconnected_gets_nothing_witness :
  pending 0%nat (broadcast 1 chat_msg None (disconnect 1 10 class_world)) = Some [].
Proof.
  unfold pending.
  rewrite (disconnected_gets_nothing 1 10 chat_msg None class_world 0%nat
             class_world_wf class_ann_channel).
  by rewrite class_ann_queue.
Defined.

(** What one step does to the registrations: it takes some away, or it is a
    [connect]. *)
Lemma hub_step_channels (db : gmap Z AudioFile) (w w' : world) :
  hub_step db w w' →
  (∀ S P q, channel S P w' = Some q → channel S P w = Some q) ∨
  (∃ S P u n t, w' = (connect S P u n t w).2).
Proof.
  intros Hstep.
  destruct Hstep as [S P u n t w|S P w|q M w|S M E w|S w|S P m w|S P r w|S P r w
                    |S a title w|S a speed position w|S position w|S control w r w' Hrun].
  - right. by exists S, P, u, n, t.
  - left. intros S' P' q. rewrite disconnect_channel. by case_decide.
  - left. intros S' P' q'. unfold channel.
    pose proof (put_or_log_registry q (PDict M) LogPersonalQueueFull w) as Hreg.
    unfold registry in Hreg. injection Hreg as Hact _.
    unfold send_personal. by rewrite Hact.
  - left. intros S' P' q. by rewrite broadcast_channel.
  - left. intros S' P' q. unfold channel.
    destruct (close_session_registry S w) as [-> _].
    destruct (decide (S = S')) as [<-|Hne].
    + by rewrite lookup_delete_eq.
    + by rewrite lookup_delete_ne.
  - left. intros S' P' q. destruct (SESSION_STATE w !! S) as [s|] eqn:Hs.
    + destruct (mute_participant_known S P m w s Hs) as (w0 & -> & Hact & _).
      unfold channel; simpl. by rewrite broadcast_active, Hact.
    + unfold mute_participant. by rewrite Hs.
  - left. intros S' P' q.
    destruct (kick_participant_unfold S P r w) as (w1 & -> & Hact & _).
    unfold channel. rewrite broadcast_active, Hact, lookup_alter_unregister.
    by case_decide.
  - left. intros S' P' q.
    destruct (disconnect_participant_unfold S P r w) as (Hreg & _).
    unfold registry in Hreg. injection Hreg as Hact _.
    unfold channel. rewrite Hact. simpl. rewrite lookup_alter_unregister.
    by case_decide.
  - left. intros S' P' q. unfold audio_select. by rewrite broadcast_channel.
  - left. intros S' P' q. unfold audio_play.
    destruct (SESSION_STATE w !! S); [|done]. by rewrite broadcast_channel.
  - left. intros S' P' q. unfold audio_pause.
    destruct (SESSION_STATE w !! S); [|done]. by rewrite broadcast_channel.
  - left. intros S' P' q. unfold control_audio_playback in Hrun.
    destruct (SESSION_STATE w !! S) as [s|]; [|done].
    destruct (is_none _); [done|].
    destruct (db_execute_raises _); [done|].
    destruct (db_audio_file db _) as [af|]; [|done].
    repeat case_decide; try done; injection Hrun as _ <-; by rewrite broadcast_channel.
Qed.

Lemma reachable_queues_unshared (db : gmap Z AudioFile) (w : world) :
  reachable db w → queues_unshared w.
Proof.
  unfold reachable. intros Hreach.
  assert (hub_wf w ∧ queues_unshared w) as [_ Hun]; [|done].
  apply (rtc_ind_r (R := hub_step db) (λ w, hub_wf w ∧ queues_unshared w) empty_world);
    [| |exact Hreach].
  - split.
    + apply hub_wf_spec. intros S m Hm. simpl in Hm. by rewrite lookup_empty in Hm.
    + intros S1 P1 S2 P2 q H1. unfold channel in H1. simpl in H1.
      by rewrite lookup_empty in H1.
  - intros w1 w2 _ Hstep [Hwf Hun]. split; [by eapply hub_wf_step|].
    destruct (hub_step_channels db w1 w2 Hstep) as [Hsub|(S & P & u & n & t & ->)].
    + intros S1 P1 S2 P2 q H1 H2. apply (Hun S1 P1 S2 P2 q); by apply Hsub.
    + assert (∀ S' P', channel S' P' w1 ≠ Some (connect S P u n t w1).1) as Hfresh.
      { intros S' P' Hch. apply (is_fresh (dom (heap w1))). apply elem_of_dom.
        unfold channel in Hch. destruct (active w1 !! S') as [m|] eqn:Hm; simpl in Hch; [|done].
        destruct (proj1 (hub_wf_spec w1) Hwf S' m Hm) as [_ Hex]. by apply (Hex P'). }
      intros S1 P1 S2 P2 q. rewrite !connect_channel.
      repeat case_decide; intros H1 H2; simplify_eq; try done.
      * by apply Hfresh in H2.
      * by apply Hfresh in H1.
      * by apply (Hun S1 P1 S2 P2 q).
Qed.

(** X21: sessions do not leak into each other.  In every state the hub
    reaches, a broadcast to session [S], and the closing of [S], leave the
    queue of every participant registered in another session as it was. *)
Theorem sessions_are_isolated (db : gmap Z AudioFile) (S S' P' : Z) (M : pydict)
    (E : option (gset Z)) (w : world) (q : qref) :
  reachable db w → S' ≠ S → channel S' P' w = Some q →
  heap (broadcast S M E w) !! q = heap w !! q ∧
  heap (close_session S w) !! q = heap w !! q.
Proof.
  intros Hreach Hne Hch.
  pose proof (reachable_queues_unshared db w Hreach) as Hun.
  assert (∀ pid, channel S pid w ≠ Some q) as Hnot.
  { intros pid Hpid. specialize (Hun S pid S' P' q Hpid Hch). congruence. }
  split.
  - by apply broadcast_heap_other.
  - by apply close_session_heap_other.
Qed.

Example two_sessions_world_reachable : reachable ∅ two_sessions_world.
Proof.
  unfold two_sessions_world. eapply rtc_r; [apply class_world_reachable|].
  apply step_connect.
Qed.

Example two_sessions_cy_channel : channel 2 20 two_sessions_world = Some 2%nat.
Proof. vm_compute. reflexivity. Qed.

Example two_sessions_cy_queue : heap two_sessions_world !! 2%nat = Some (mkQueue 256 []).
Proof. vm_compute. reflexivity. Qed.

Lemma sessions_are_isolated_witness :
  pending 2%nat (broadcast 1 chat_msg None two_sessions_world) = Some [] ∧
  pending 2%nat (close_session 1 two_sessions_world) = Some [].
Proof.
  destruct (sessions_are_isolated ∅ 1 2 20 chat_msg None two_sessions_world 2%nat
              two_sessions_world_reachable ltac:(discriminate) two_sessions_cy_channel)
    as [Hcast Hclose].
  unfold pending. rewrite Hcast, Hclose, two_sessions_cy_queue. done.
Defined.

(** ** The pause endpoint *)

(** X22: [rest_pause_audio] passes no position to the hub, so the pause it
    makes always stores position 0.0, wherever the playback was, and
    broadcasts ["audio_pause"] with position 0.0.  It answers [ok] in every
    case, also for a session that [SESSION_STATE] does not know, where it
    changes nothing. *)
Theorem rest_pause_audio_resets_position (S : Z) (w : world) :
  (rest_pause_audio S w).1 = {[ "ok" := PBool true ]} ∧
  (SESSION_STATE w !! S = None → (rest_pause_audio S w).2 = w) ∧
  (∀ s, SESSION_STATE w !! S = Some s →
     ∃ pb', session_playback S (rest_pause_audio S w).2 = Some pb' ∧
       dict_get pb' "position" = PFloat 0.0%float ∧
       dict_get pb' "status" = PStr "paused" ∧
       dict_get pb' "audio_id" = dict_get (playback s) "audio_id" ∧
       playback_transition S pb'
         {[ "type" := PStr "audio_pause"; "position" := PFloat 0.0%float ]}
         w (rest_pause_audio S w).2).
Proof.
  split; [done|]. split.
  - intros Hs. simpl. unfold audio_pause. by rewrite Hs.
  - intros s Hs. simpl.
    exists (<["position" := PFloat 0.0%float]> (<["status" := PStr "paused"]> (playback s))).
    split; [|split; [|split; [|split]]].
    + unfold session_playback, audio_pause. rewrite Hs.
      rewrite broadcast_SESSION_STATE. simpl. by rewrite lookup_insert_eq.
    + apply dict_get_insert_eq.
    + rewrite dict_get_insert_ne by done. apply dict_get_insert_eq.
    + by rewrite !dict_get_insert_ne.
    + unfold audio_pause. rewrite Hs.
      apply (playback_rewrite_transition S s
               (λ pb, <["position" := PFloat 0.0%float]> (<["status" := PStr "paused"]> pb)));
        by rewrite Hs.
Qed.

Lemma rest_pause_audio_resets_position_witness :
  (session_playback 1
     (rest_pause_audio 1
        (audio_play 1 7 1.0%float 3.0%float (audio_select 1 7 (Some "T") class_world))).2
   ≫= λ pb, Some (dict_get pb "position"))
  = Some (PFloat 0.0%float).
Proof.
  destruct (rest_pause_audio_resets_position 1
              (audio_play 1 7 1.0%float 3.0%float (audio_select 1 7 (Some "T") class_world)))
    as (_ & _ & Hknown).
  destruct (audio_select_session 1 7 (Some "T") class_world) as (s1 & Hs1 & _).
  destruct (audio_play_session 1 7 1.0%float 3.0%float _ s1 Hs1) as (s2 & Hs2 & _).
  destruct (Hknown s2 Hs2) as (pb' & -> & Hpos & _). simpl. by rewrite Hpos.
Defined.

(** * Mute after kick, and seek after play *)

(** ** The mute after a kick: C1 *)

(** C1, amended: after [kick(S, P, reason)] a [mute(S, P, m)] registers no
    channel for [P], and is a no-op when [S] is not in [SESSION_STATE];
    when [S] is there, the mute creates a roster entry for [P] that holds
    [is_muted = m] alone and makes one ["participant_muted"] broadcast.
    In a state whose registered queues are distinct objects, every channel
    still registered for [S] after the kick whose queue has room gets the
    message [participant_muted_msg P m] once, behind what was pending on
    it, and the queue that was taken from [P] gets nothing.  A queue that
    is not registered for [S] is never written to. *)
Theorem mute_after_kick (S P : Z) (reason : option string) (m : bool) (w : world) :
  (roster_entry S P (kick_participant S P reason w) = None ∧
   channel S P (mute_participant S P m (kick_participant S P reason w)) = None ∧
   state_channel S P (mute_participant S P m (kick_participant S P reason w)) = None) ∧
  (SESSION_STATE w !! S = None →
   mute_participant S P m (kick_participant S P reason w)
   = kick_participant S P reason w) ∧
  (is_Some (SESSION_STATE w !! S) →
   roster_entry S P (mute_participant S P m (kick_participant S P reason w))
   = Some {[ "is_muted" := PBool m ]} ∧
   broadcast_types (stdout (mute_participant S P m (kick_participant S P reason w)))
   = broadcast_types (stdout (kick_participant S P reason w))
     ++ [PStr "participant_muted"] ∧
   (hub_wf w → ∀ pid q c,
      channel S pid (kick_participant S P reason w) = Some q →
      heap (kick_participant S P reason w) !! q = Some c → has_room c 1 →
      heap (mute_participant S P m (kick_participant S P reason w)) !! q
      = Some (mkQueue (maxsize c) (items c ++ [PDict (participant_muted_msg P m)])))) ∧
  (hub_wf w → ∀ q, channel S P w = Some q →
   heap (mute_participant S P m (kick_participant S P reason w)) !! q
   = heap (kick_participant S P reason w) !! q) ∧
  (∀ q, (∀ pid, channel S pid (kick_participant S P reason w) ≠ Some q) →
   heap (mute_participant S P m (kick_participant S P reason w)) !! q
   = heap (kick_participant S P reason w) !! q).
Proof.
  pose proof (kick_participant_roster S P reason w) as Hroster.
  pose proof (kick_participant_channel S P P reason w) as Hch.
  rewrite decide_True in Hch by done.
  pose proof (kick_participant_state_channel S P reason w) as Hsch.
  pose proof (hub_wf_kick_participant S P reason w) as Hwf1.
  set (w1 := kick_participant S P reason w) in *.
  destruct (SESSION_STATE w1 !! S) as [s1|] eqn:Hs1.
  - destruct (mute_participant_known S P m w1 s1 Hs1)
      as (w0 & -> & Hact & Hheap & Hout & Hst).
    assert (participants s1 !! P = None) as Hp.
    { unfold roster_entry in Hroster. by rewrite Hs1 in Hroster. }
    split; [split; [done|split]|split; [|split; [|split]]].
    + unfold channel in *; simpl. by rewrite broadcast_active, Hact.
    + unfold state_channel in *; simpl.
      rewrite broadcast_SESSION_STATE, Hst, lookup_insert_eq; simpl.
      by rewrite Hs1 in Hsch.
    + intros Hnone. exfalso. unfold w1 in Hs1.
      destruct (kick_participant_unfold S P reason w) as (w' & Hk & _ & Hst' & _).
      rewrite Hk, broadcast_SESSION_STATE, Hst', lookup_alter_eq, Hnone in Hs1.
      discriminate Hs1.
    + intros _. split; [|split].
      * unfold roster_entry; simpl.
        rewrite broadcast_SESSION_STATE, Hst, lookup_insert_eq; simpl.
        rewrite lookup_insert_eq, Hp; simpl. by rewrite insert_empty.
      * simpl. rewrite broadcast_types_app, broadcast_broadcast_types, Hout; simpl.
        by rewrite app_nil_r.
      * intros Hwf pid q c Hpid Hq Hroom. simpl.
        apply (broadcast_heap_room S _ None w0 pid q c).
        -- apply (hub_wf_frame w1); [done|by rewrite Hheap|by apply Hwf1].
        -- unfold channel in *. by rewrite Hact.
        -- apply not_elem_of_empty.
        -- by rewrite Hheap.
        -- done.
    + intros Hwf q Hq. simpl. rewrite broadcast_heap_other; [by rewrite Hheap|].
      intros pid. unfold channel. rewrite Hact.
      by apply (kick_participant_detached S P reason w q Hwf Hq pid).
    + intros q Hq. simpl. rewrite broadcast_heap_other; [by rewrite Hheap|].
      intros pid. unfold channel. rewrite Hact. apply Hq.
  - assert (mute_participant S P m w1 = w1) as Hsame.
    { unfold mute_participant. by rewrite Hs1. }
    rewrite Hsame. split; [done|]. split; [done|]. split; [|done].
    intros [s Hs]. exfalso. unfold w1 in Hs1.
    destruct (kick_participant_unfold S P reason w) as (w' & Hk & _ & Hst' & _).
    rewrite Hk, broadcast_SESSION_STATE, Hst', lookup_alter_eq, Hs in Hs1.
    discriminate Hs1.
Qed.

(** The class after Ann is kicked: Bob is still registered, and the notice
    of the kick is pending on his queue. *)
Example kicked_class_known : is_Some (SESSION_STATE class_world !! 1).
Proof. vm_compute. by eexists. Qed.

Example kicked_class_bob_channel :
  channel 1 11 (kick_participant 1 10 None class_world) = Some 1%nat.
Proof. vm_compute. reflexivity. Qed.

Example kicked_class_bob_queue :
  heap (kick_participant 1 10 None class_world) !! 1%nat
  = Some (mkQueue 256 [PDict (participant_kicked_msg 10)]).
Proof. vm_compute. reflexivity. Qed.

Example short_queue_room (l : list pyval) :
  (length l <= 8)%nat → has_room (mkQueue 256 l) 1.
Proof. intros Hl. right. unfold qsize. simpl. lia. Qed.

(** Ann is kicked from the class and then muted: her entry comes back with
    the flag alone, Bob's queue gets the notice of the mute behind the
    notice of the kick, and Ann's old queue (reference 0) gets nothing.  In
    session 7, which is not known, the mute does nothing. *)
Lemma mute_after_kick_witness :
  roster_entry 1 10 (mute_participant 1 10 true (kick_participant 1 10 None class_world))
  = Some {[ "is_muted" := PBool true ]} ∧
  broadcast_types
    (stdout (mute_participant 1 10 true (kick_participant 1 10 None class_world)))
  = broadcast_types (stdout (kick_participant 1 10 None class_world))
    ++ [PStr "participant_muted"] ∧
  pending 1%nat (mute_participant 1 10 true (kick_participant 1 10 None class_world))
  = Some [PDict (participant_kicked_msg 10); PDict (participant_muted_msg 10 true)] ∧
  pending 0%nat (mute_participant 1 10 true (kick_participant 1 10 None class_world))
  = pending 0%nat (kick_participant 1 10 None class_world) ∧
  mute_participant 7 10 true (kick_participant 7 10 None class_world)
  = kick_participant 7 10 None class_world.
Proof.
  destruct (mute_after_kick 1 10 None true class_world) as (_ & _ & Hknown & Hqueue & _).
  destruct (mute_after_kick 7 10 None true class_world) as (_ & Hnoop & _).
  destruct (Hknown kicked_class_known) as (Hentry & Hcast & Hsend).
  split; [exact Hentry|]. split; [exact Hcast|]. split; [|split].
  - unfold pending.
    rewrite (Hsend class_world_wf 11 1%nat _ kicked_class_bob_channel kicked_class_bob_queue);
      [reflexivity|].
    apply short_queue_room. simpl. lia.
  - unfold pending. by rewrite (Hqueue class_world_wf 0%nat class_ann_channel).
  - apply Hnoop. vm_compute. reflexivity.
Defined.

(** ** Seek after play: C8 *)










